(** * Verification of [nn.py]: the vocabulary index of strings-and-vectors

    The Python class [Index] maps the distinct objects of a vocabulary to
    consecutive integers and converts sequences of objects to index
    vectors, padded index matrices and one-hot vectors, and back.

    Modelling choices.
    - Vocabulary objects are any type with decidable equality that can key
      a dictionary ([Countable]); the two Python dicts are [gmap]s.
    - Python integers are [Z].  A 1-D numpy array of dtype [int] is a
      [list Z]; a 2-D array carries its shape next to its rows, so that a
      matrix with zero rows still has a column count.
    - dtype [int] is the signed 64-bit integer (numpy 2 on every platform,
      numpy 1 where the C [long] has 64 bits): storing a Python integer
      outside that range in such an array raises [OverflowError].
    - numpy refuses a shape with a negative dimension, and a shape whose
      bytes (8 per element, dimensions of size 0 left out of the product)
      exceed the largest signed 64-bit integer.  Running out of memory for
      a shape numpy accepts is not modelled, and neither is the limit of
      the length of a Python list (fewer than [2^60] elements).
    - A Python exception is a value of [exn]; code that can raise lives in
      the [result] monad. *)

From stdpp Require Import gmap strings list fin_maps.

Local Open Scope Z_scope.

(** ** Exceptions and the error monad *)

Inductive exn : Type :=
  | ValueError_max_empty          (* max() of an empty iterable *)
  | ValueError_negative_dimensions (* np.zeros / np.full with a negative size *)
  | ValueError_array_too_big      (* a dimension or the size in bytes is
                                     beyond what an array can have *)
  | ValueError_broadcast          (* slice assignment with a wrong shape *)
  | OverflowError                 (* a Python int that does not fit the
                                     64-bit element of the array *)
  | IndexError_out_of_bounds      (* array[i] with i outside [-n, n) *)
  | KeyError.                     (* dict[k] with k absent *)

Inductive result (A : Type) : Type :=
  | Ok (a : A)
  | Raise (e : exn).
Arguments Ok {A} a.
Arguments Raise {A} e.

(** Sequencing: the first exception raised ends the computation.  With
    this instance stdpp's notation [x ← m; k] reads as Python's statement
    sequence. *)
#[global] Instance result_bind : MBind result := λ A B k m,
  match m with
  | Ok a => k a
  | Raise e => Raise e
  end.

(** ** The numpy and builtin operations the class uses *)

(** A 2-D integer array: [shape] is (rows, columns). *)
Record ndarray2 : Type := NdArray2 {
  shape : nat * nat;
  rows : list (list Z)
}.

(** [max(iterable)]: raises [ValueError] on an empty iterable. *)
Definition py_max (l : list nat) : result nat :=
  match l with
  | [] => Raise ValueError_max_empty
  | x :: r => Ok (foldl Nat.max x r)
  end.

(** The range of the elements of a dtype [int] array, which is also the
    range of a dimension. *)
Definition int64_min : Z := - 2 ^ 63.
Definition int64_max : Z := 2 ^ 63 - 1.

Definition fits_int64 (z : Z) : Prop := int64_min ≤ z ≤ int64_max.

#[global] Instance fits_int64_dec (z : Z) : Decision (fits_int64 z).
Proof. unfold fits_int64. apply _. Defined.

(** The largest number of elements of a dtype [int] array:
    [int64_max // 8]. *)
Definition max_array_elems : Z := 2 ^ 60 - 1.

(** The check numpy makes when it creates an array of a given shape: it
    multiplies the size of an element (8 bytes) by the dimensions in
    order, skips a dimension of size 0, refuses a negative dimension, and
    refuses a product that leaves the signed 64-bit range. *)
Fixpoint np_count_bytes (nbytes : Z) (dims : list Z) : result Z :=
  match dims with
  | [] => Ok nbytes
  | dim :: rest =>
      if decide (dim = 0) then np_count_bytes nbytes rest
      else if decide (dim < 0) then Raise ValueError_negative_dimensions
      else if decide (int64_max < nbytes * dim)
           then Raise ValueError_array_too_big
      else np_count_bytes (nbytes * dim) rest
  end.

(** A dimension that is no signed 64-bit integer is refused before the
    others are looked at. *)
Definition np_check_shape (dims : list Z) : result Z :=
  if decide (Forall fits_int64 dims) then np_count_bytes 8 dims
  else Raise ValueError_array_too_big.

(** [np.zeros(n, dtype=int)] for an integer [n]. *)
Definition np_zeros (n : Z) : result (list Z) :=
  _ ← np_check_shape [n];
  Ok (replicate (Z.to_nat n) 0).

(** [np.zeros((r, c), dtype=int)] where [r] is a length. *)
Definition np_zeros2 (r : nat) (c : Z) : result ndarray2 :=
  _ ← np_check_shape [Z.of_nat r; c];
  Ok (NdArray2 (r, Z.to_nat c) (replicate r (replicate (Z.to_nat c) 0))).

(** [np.full((r, c), fill, dtype=int)] where [r] and [c] are lengths:
    the array is created first, then filled. *)
Definition np_full2 (r c : nat) (fill : Z) : result ndarray2 :=
  _ ← np_check_shape [Z.of_nat r; Z.of_nat c];
  if decide (fits_int64 fill)
  then Ok (NdArray2 (r, c) (replicate r (replicate c fill)))
  else Raise OverflowError.

(** [np.array(values, dtype=int)] for a list of Python integers. *)
Definition np_array_int (values : list Z) : result (list Z) :=
  if decide (Forall fits_int64 values) then Ok values
  else Raise OverflowError.

(** [vector[idx] = val]: a negative [idx] counts from the end; an index
    outside [-n, n) raises [IndexError]. *)
Definition np_setitem (vector : list Z) (idx val : Z) : result (list Z) :=
  let n := Z.of_nat (length vector) in
  if decide (0 ≤ idx < n) then Ok (<[Z.to_nat idx := val]> vector)
  else if decide (- n ≤ idx < 0) then Ok (<[Z.to_nat (n + idx) := val]> vector)
  else Raise IndexError_out_of_bounds.

(** [matrix[i, :k] = values] for a list of Python integers: the slice
    [:k] is clipped to the row width; the integers must fit the elements
    of the matrix, and [values] must have the length of the slice, or
    length one. *)
Definition np_setrow_prefix (matrix : ndarray2) (i k : nat) (values : list Z)
  : result ndarray2 :=
  match rows matrix !! i with
  | None => Raise IndexError_out_of_bounds
  | Some row =>
      let w := Nat.min k (snd (shape matrix)) in
      if decide (Forall fits_int64 values) then
      if decide (length values = w) then
        Ok (NdArray2 (shape matrix)
              (<[i := values ++ drop w row]> (rows matrix)))
      else if decide (length values = 1%nat) then
        Ok (NdArray2 (shape matrix)
              (<[i := replicate w (default 0 (head values)) ++ drop w row]>
                 (rows matrix)))
      else Raise ValueError_broadcast
      else Raise OverflowError
  end.

(** [matrix[i] = vector]: the vector must have the row width, or length
    one. *)
Definition np_setrow (matrix : ndarray2) (i : nat) (vector : list Z)
  : result ndarray2 :=
  match rows matrix !! i with
  | None => Raise IndexError_out_of_bounds
  | Some _ =>
      let w := snd (shape matrix) in
      if decide (length vector = w) then
        Ok (NdArray2 (shape matrix) (<[i := vector]> (rows matrix)))
      else if decide (length vector = 1%nat) then
        Ok (NdArray2 (shape matrix)
              (<[i := replicate w (default 0 (head vector))]> (rows matrix)))
      else Raise ValueError_broadcast
  end.

(** [d[k]]: raises [KeyError] when [k] is absent. *)
Definition dict_getitem `{Countable K} {V : Type} (d : gmap K V) (k : K)
  : result V :=
  match d !! k with
  | Some v => Ok v
  | None => Raise KeyError
  end.

(** ** The class [Index] *)

Section Index.
Context {Obj : Type} `{Countable Obj}.

Record Index : Type := MkIndex {
  start : Z;
  object_to_index : gmap Obj Z;
  index_to_object : gmap Z Obj;
  vocab_size : Z;
  not_in_index : Z
}.

(** One iteration of the loop of [__init__]; the state is the two dicts
    and the local [idx]. *)
Definition init_step (st : gmap Obj Z * gmap Z Obj * Z) (obj : Obj)
  : gmap Obj Z * gmap Z Obj * Z :=
  let '(o2i, i2o, idx) := st in
  match o2i !! obj with
  | None => (<[obj := idx]> o2i, <[idx := obj]> i2o, idx + 1)
  | Some _ => st
  end.

Definition init_loop (vocab : list Obj) (start : Z)
  : gmap Obj Z * gmap Z Obj * Z :=
  foldl init_step (∅, ∅, start) vocab.

(** [Index.__init__(vocab, start)] *)
Definition Index_init (vocab : list Obj) (start : Z) : Index :=
  let '(o2i, i2o, idx) := init_loop vocab start in
  MkIndex start o2i i2o (idx - start) (start - 1).

(** The list comprehension
    [[self.object_to_index.get(obj, self.not_in_index) for obj in seq]],
    a list of Python integers. *)
Definition index_list (self : Index) (object_seq : list Obj) : list Z :=
  map (λ obj, default (not_in_index self) (object_to_index self !! obj))
      object_seq.

(** [Index.objects_to_indexes] *)
Definition objects_to_indexes (self : Index) (object_seq : list Obj)
  : result (list Z) :=
  np_array_int (index_list self object_seq).

(** The loop of [objects_to_index_matrix], [i] being the counter of
    [enumerate]. *)
Fixpoint index_matrix_loop (self : Index) (i : nat)
    (object_seq_seq : list (list Obj)) (matrix : ndarray2) : result ndarray2 :=
  match object_seq_seq with
  | [] => Ok matrix
  | seq :: rest =>
      let indexes := index_list self seq in
      matrix' ← np_setrow_prefix matrix i (length indexes) indexes;
      index_matrix_loop self (S i) rest matrix'
  end.

(** [Index.objects_to_index_matrix] *)
Definition objects_to_index_matrix (self : Index)
    (object_seq_seq : list (list Obj)) : result ndarray2 :=
  max_length ← py_max (map length object_seq_seq);
  matrix ← np_full2 (length object_seq_seq) max_length (not_in_index self);
  index_matrix_loop self 0 object_seq_seq matrix.

(** The loop of [objects_to_binary_vector]. *)
Fixpoint binary_vector_loop (self : Index) (object_seq : list Obj)
    (vector : list Z) : result (list Z) :=
  match object_seq with
  | [] => Ok vector
  | obj :: rest =>
      match object_to_index self !! obj with
      | Some idx =>
          vector' ← np_setitem vector idx 1;
          binary_vector_loop self rest vector'
      | None => binary_vector_loop self rest vector
      end
  end.

(** [Index.objects_to_binary_vector] *)
Definition objects_to_binary_vector (self : Index) (object_seq : list Obj)
  : result (list Z) :=
  vector ← np_zeros (vocab_size self + start self);
  binary_vector_loop self object_seq vector.

(** The loop of [objects_to_binary_matrix]. *)
Fixpoint binary_matrix_loop (self : Index) (i : nat)
    (object_seq_seq : list (list Obj)) (matrix : ndarray2) : result ndarray2 :=
  match object_seq_seq with
  | [] => Ok matrix
  | seq :: rest =>
      vector ← objects_to_binary_vector self seq;
      matrix' ← np_setrow matrix i vector;
      binary_matrix_loop self (S i) rest matrix'
  end.

(** [Index.objects_to_binary_matrix] *)
Definition objects_to_binary_matrix (self : Index)
    (object_seq_seq : list (list Obj)) : result ndarray2 :=
  matrix ← np_zeros2 (length object_seq_seq) (vocab_size self + start self);
  binary_matrix_loop self 0 object_seq_seq matrix.

(** [Index.indexes_to_objects]: the comprehension subscripts the dict only
    under the guard [idx in self.index_to_object]. *)
Fixpoint indexes_to_objects (self : Index) (index_vector : list Z)
  : result (list Obj) :=
  match index_vector with
  | [] => Ok []
  | idx :: rest =>
      if decide (is_Some (index_to_object self !! idx)) then
        obj ← dict_getitem (index_to_object self) idx;
        objs ← indexes_to_objects self rest;
        Ok (obj :: objs)
      else indexes_to_objects self rest
  end.

(** [Index.index_matrix_to_objects], on the rows of the matrix. *)
Fixpoint index_matrix_to_objects (self : Index) (index_matrix : list (list Z))
  : result (list (list Obj)) :=
  match index_matrix with
  | [] => Ok []
  | row :: rest =>
      objs ← indexes_to_objects self row;
      tl ← index_matrix_to_objects self rest;
      Ok (objs :: tl)
  end.

(** The comprehension of [binary_vector_to_objects] over
    [enumerate(vec)], [idx] being the counter. *)
Fixpoint binary_vector_scan (self : Index) (idx : Z) (vec : list Z)
  : result (list Obj) :=
  match vec with
  | [] => Ok []
  | val :: rest =>
      if decide (val = 1 ∧ is_Some (index_to_object self !! idx)) then
        obj ← dict_getitem (index_to_object self) idx;
        objs ← binary_vector_scan self (idx + 1) rest;
        Ok (obj :: objs)
      else binary_vector_scan self (idx + 1) rest
  end.

(** [Index.binary_vector_to_objects] *)
Definition binary_vector_to_objects (self : Index) (vec : list Z)
  : result (list Obj) :=
  binary_vector_scan self 0 vec.

(** [Index.binary_matrix_to_objects], on the rows of the matrix. *)
Fixpoint binary_matrix_to_objects (self : Index) (binary_matrix : list (list Z))
  : result (list (list Obj)) :=
  match binary_matrix with
  | [] => Ok []
  | row :: rest =>
      objs ← binary_vector_to_objects self row;
      tl ← binary_matrix_to_objects self rest;
      Ok (objs :: tl)
  end.

(** ** Method calls as state passing

    A method receives the object [self] and may leave it changed; a call
    gives back the object after the call next to what the method
    returned or raised.  No method of the class assigns to an attribute
    of [self] or updates one of its dicts. *)

Inductive operation : Type :=
  | Call_objects_to_indexes (object_seq : list Obj)
  | Call_objects_to_index_matrix (object_seq_seq : list (list Obj))
  | Call_objects_to_binary_vector (object_seq : list Obj)
  | Call_objects_to_binary_matrix (object_seq_seq : list (list Obj))
  | Call_indexes_to_objects (index_vector : list Z)
  | Call_index_matrix_to_objects (index_matrix : list (list Z))
  | Call_binary_vector_to_objects (vec : list Z)
  | Call_binary_matrix_to_objects (binary_matrix : list (list Z)).

Inductive outcome : Type :=
  | Out_vector (r : result (list Z))
  | Out_matrix (r : result ndarray2)
  | Out_objects (r : result (list Obj))
  | Out_object_seqs (r : result (list (list Obj))).

Definition call (self : Index) (op : operation) : Index * outcome :=
  match op with
  | Call_objects_to_indexes s =>
      (self, Out_vector (objects_to_indexes self s))
  | Call_objects_to_index_matrix ss =>
      (self, Out_matrix (objects_to_index_matrix self ss))
  | Call_objects_to_binary_vector s =>
      (self, Out_vector (objects_to_binary_vector self s))
  | Call_objects_to_binary_matrix ss =>
      (self, Out_matrix (objects_to_binary_matrix self ss))
  | Call_indexes_to_objects v =>
      (self, Out_objects (indexes_to_objects self v))
  | Call_index_matrix_to_objects m =>
      (self, Out_object_seqs (index_matrix_to_objects self m))
  | Call_binary_vector_to_objects v =>
      (self, Out_objects (binary_vector_to_objects self v))
  | Call_binary_matrix_to_objects m =>
      (self, Out_object_seqs (binary_matrix_to_objects self m))
  end.

(** The object after a sequence of calls. *)
Definition after_calls (self : Index) (ops : list operation) : Index :=
  foldl (λ s op, fst (call s op)) self ops.

(** ** Specification-level definitions *)

(** The distinct objects of a sequence in order of first occurrence. *)
Fixpoint first_occurrences (l : list Obj) : list Obj :=
  match l with
  | [] => []
  | x :: r => x :: filter (λ y, y ≠ x) (first_occurrences r)
  end.

(** The data-model invariants of a vocabulary index. *)
Record index_invariant (self : Index) : Prop := {
  inv_inverse : ∀ obj i,
    object_to_index self !! obj = Some i ↔ index_to_object self !! i = Some obj;
  inv_range : ∀ i,
    is_Some (index_to_object self !! i) ↔
    start self ≤ i ≤ start self + vocab_size self - 1;
  inv_no_duplicates : ∀ obj obj' i,
    object_to_index self !! obj = Some i →
    object_to_index self !! obj' = Some i → obj = obj';
  inv_size : Z.of_nat (size (object_to_index self)) = vocab_size self
             ∧ Z.of_nat (size (index_to_object self)) = vocab_size self;
  inv_sentinel : not_in_index self = start self - 1;
  inv_sentinel_free : index_to_object self !! not_in_index self = None
}.

(** The decoding of a one-hot vector in the words of the specification:
    the positions in increasing order, those holding exactly 1 kept, each
    replaced by its object when it has one. *)
Definition set_objects_in_index_order (self : Index) (vec : list Z) : list Obj :=
  omap (λ i : nat, index_to_object self !! Z.of_nat i)
       (filter (λ i : nat, vec !! i = Some 1) (seq 0 (length vec))).

(** Row [seq] of the padded index matrix of width [w]. *)
Definition padded_row (self : Index) (w : nat) (seq : list Obj) : list Z :=
  index_list self seq
  ++ replicate (w - length seq) (not_in_index self).

(** The largest length among a list of sequences (0 for none). *)
Definition max_length_of {A : Type} (ss : list (list A)) : nat :=
  foldr Nat.max 0%nat (map length ss).

(** The one-hot vector of a sequence, position by position: position [i]
    holds 1 when some object of the sequence has index [i], and 0
    otherwise; the width is [vocab_size + start]. *)
Definition one_hot (self : Index) (object_seq : list Obj) : list Z :=
  (λ i : nat,
     if decide (Exists (λ obj, object_to_index self !! obj = Some (Z.of_nat i))
                       object_seq)
     then 1 else 0)
  <$> seq 0 (Z.to_nat (vocab_size self + start self)).

(** The indexes [idx] at which the loop of [objects_to_binary_vector]
    executes [vector[idx] = 1], in order. *)
Definition write_indexes (self : Index) (object_seq : list Obj) : list Z :=
  omap (λ obj, object_to_index self !! obj) object_seq.

(** The statements [vector[idx] = 1] executed one after the other for the
    indexes of a list. *)
Fixpoint write_ones (vector : list Z) (idxs : list Z) : result (list Z) :=
  match idxs with
  | [] => Ok vector
  | idx :: rest =>
      vector' ← np_setitem vector idx 1;
      write_ones vector' rest
  end.

(** Every index of the vocabulary fits the elements of a dtype [int]
    array. *)
Definition indexes_fit (self : Index) : Prop :=
  int64_min ≤ start self ∧ start self + vocab_size self - 1 ≤ int64_max.

(** The sentinel and every index fit. *)
Definition values_fit (self : Index) : Prop :=
  int64_min ≤ not_in_index self
  ∧ start self + vocab_size self - 1 ≤ int64_max.

(** The bytes of an array of 64-bit integers of a given shape, as numpy
    counts them: dimensions of size 0 are left out of the product. *)
Definition array_bytes (dims : list Z) : Z :=
  foldl (λ n d, if decide (d = 0) then n else n * d) 8 dims.

(** The vector [vec] holds 1 at the position that is the index of [obj]. *)
Definition set_in (self : Index) (vec : list Z) (obj : Obj) : Prop :=
  match object_to_index self !! obj with
  | Some i => 0 ≤ i ∧ vec !! Z.to_nat i = Some 1
  | None => False
  end.

#[global] Instance set_in_dec (self : Index) (vec : list Z) (obj : Obj) :
  Decision (set_in self vec obj).
Proof. unfold set_in. destruct (object_to_index self !! obj); apply _. Defined.

(** ** Loop invariants *)

(** What the loop of [__init__] has built after reading [vocab]: the
    [k]-th distinct object, in order of first occurrence, is paired with
    [start + k] in both dicts, and [idx] is the next free index. *)
Definition built_from (base : Z) (vocab : list Obj)
    (st : gmap Obj Z * gmap Z Obj * Z) : Prop :=
  let '(o2i, i2o, idx) := st in
  idx = base + Z.of_nat (length (first_occurrences vocab))
  ∧ (∀ (x : Obj) (i : Z), o2i !! x = Some i ↔
       ∃ k : nat, i = base + Z.of_nat k ∧ first_occurrences vocab !! k = Some x)
  ∧ (∀ (i : Z) (x : Obj), i2o !! i = Some x ↔
       ∃ k : nat, i = base + Z.of_nat k ∧ first_occurrences vocab !! k = Some x)
  ∧ size o2i = length (first_occurrences vocab)
  ∧ size i2o = length (first_occurrences vocab).

(** The vector of [objects_to_binary_vector] after its loop has read
    [object_seq], starting from [vector]. *)
Definition marked (self : Index) (object_seq : list Obj) (vector : list Z)
  : list Z :=
  imap (λ (i : nat) (b : Z),
          if decide (Exists (λ obj, object_to_index self !! obj
                                    = Some (Z.of_nat i)) object_seq)
          then 1 else b) vector.

End Index.

Arguments Index Obj {_ _}.
Arguments operation : clear implicits.
Arguments outcome : clear implicits.

(** * Proofs

    In the statements below [base] is the value passed for the parameter
    [start] of [__init__]; [start self] is the attribute it is stored
    in. *)

(** ** The error monad *)

Lemma bind_Ok {A B : Type} (a : A) (k : A → result B) : (Ok a ≫= k) = k a.
Proof. reflexivity. Qed.

Lemma bind_Ok_inv {A B : Type} (m : result A) (k : A → result B) (b : B) :
  (m ≫= k) = Ok b → ∃ a, m = Ok a ∧ k a = Ok b.
Proof. destruct m as [a|e]; [eauto | discriminate]. Qed.

(** ** Arrays: when they are created and what they hold *)

Lemma np_array_int_fits (values : list Z) :
  Forall fits_int64 values → np_array_int values = Ok values.
Proof. intros Hfit. unfold np_array_int. by rewrite decide_True. Qed.

Lemma np_array_int_overflow (values : list Z) :
  ¬ Forall fits_int64 values → np_array_int values = Raise OverflowError.
Proof. intros Hfit. unfold np_array_int. by rewrite decide_False. Qed.

(** The three outcomes of [np.zeros(n, dtype=int)]. *)
Lemma np_zeros_cases (n : Z) :
  np_zeros n =
  if decide (0 ≤ n ≤ max_array_elems) then Ok (replicate (Z.to_nat n) 0)
  else if decide (int64_min ≤ n < 0) then Raise ValueError_negative_dimensions
  else Raise ValueError_array_too_big.
Proof.
  unfold np_zeros, np_check_shape, np_count_bytes.
  assert (Hfit : Forall fits_int64 [n] ↔ int64_min ≤ n ≤ int64_max).
  { rewrite Forall_singleton. done. }
  unfold max_array_elems, int64_min, int64_max in *.
  repeat case_decide; simpl; try done; try (exfalso; lia);
    exfalso; rewrite Hfit in *; lia.
Qed.

Lemma np_zeros_ok (n : Z) :
  0 ≤ n ≤ max_array_elems → np_zeros n = Ok (replicate (Z.to_nat n) 0).
Proof. intros Hn. rewrite np_zeros_cases. by rewrite decide_True. Qed.

Lemma array_bytes_2 (r c : Z) :
  array_bytes [r; c] =
  8 * (if decide (r = 0) then 1 else r) * (if decide (c = 0) then 1 else c).
Proof. unfold array_bytes. simpl. repeat case_decide; lia. Qed.

(** A shape of two dimensions that are not negative is accepted exactly
    when its bytes fit. *)
Lemma np_check_shape_2 (r c : Z) :
  0 ≤ r → 0 ≤ c →
  np_check_shape [r; c] =
  if decide (array_bytes [r; c] ≤ int64_max) then Ok (array_bytes [r; c])
  else Raise ValueError_array_too_big.
Proof.
  intros Hr Hc. rewrite array_bytes_2.
  unfold np_check_shape, np_count_bytes.
  assert (Hfit : Forall fits_int64 [r; c]
                 ↔ (int64_min ≤ r ≤ int64_max) ∧ (int64_min ≤ c ≤ int64_max)).
  { rewrite Forall_cons, Forall_singleton. done. }
  unfold int64_min, int64_max in *.
  repeat case_decide; simpl; try done; try (f_equal; lia);
    try (exfalso; nia); exfalso; rewrite Hfit in *; nia.
Qed.

Lemma np_check_shape_2_negative (r : nat) (c : Z) :
  int64_min ≤ c < 0 → Z.of_nat r ≤ max_array_elems →
  np_check_shape [Z.of_nat r; c] = Raise ValueError_negative_dimensions.
Proof.
  intros Hc Hr. unfold np_check_shape, np_count_bytes.
  unfold max_array_elems, int64_min, int64_max in *.
  rewrite decide_True.
  - repeat case_decide; simpl; try done; exfalso; lia.
  - rewrite Forall_cons, Forall_singleton.
    unfold fits_int64, int64_min, int64_max. lia.
Qed.

(** ** First occurrences *)

Section FirstOccurrences.
Context {Obj : Type} `{Countable Obj}.
Implicit Types (l : list Obj) (x y : Obj).

Lemma elem_of_first_occurrences l x : x ∈ first_occurrences l ↔ x ∈ l.
Proof.
  revert x; induction l as [|a l IH]; intros x; simpl; [done|].
  rewrite !elem_of_cons, list_elem_of_filter, IH.
  destruct (decide (x = a)); tauto.
Qed.

Lemma NoDup_first_occurrences l : NoDup (first_occurrences l).
Proof.
  induction l as [|a l IH]; simpl; [constructor|].
  constructor; [|by apply NoDup_filter].
  rewrite list_elem_of_filter. tauto.
Qed.

Lemma first_occurrences_snoc l x :
  first_occurrences (l ++ [x]) =
  first_occurrences l ++ (if decide (x ∈ l) then [] else [x]).
Proof.
  induction l as [|a l IH]; simpl.
  - reflexivity.
  - rewrite IH, filter_app. f_equal. f_equal.
    destruct (decide (x = a)) as [->|Hne].
    + rewrite (decide_True (P := a ∈ a :: l)) by apply list_elem_of_here.
      case_decide; [done|]. rewrite filter_cons, decide_False; [done|tauto].
    + case_decide as Hin.
      * rewrite decide_True; [done | by apply list_elem_of_further].
      * rewrite decide_False.
        -- by rewrite filter_cons, decide_True.
        -- rewrite elem_of_cons. tauto.
Qed.

End FirstOccurrences.

(** ** Construction *)

Section Construction.
Context {Obj : Type} `{Countable Obj}.
Implicit Types (vocab l : list Obj) (x obj : Obj) (i idx : Z) (k : nat).

Lemma built_from_nil base : built_from base (@nil Obj) (∅, ∅, base).
Proof.
  repeat split; simpl; try lia.
  - by rewrite lookup_empty.
  - by intros (k & _ & ?).
  - by rewrite lookup_empty.
  - by intros (k & _ & ?).
Qed.

Lemma built_from_step base vocab st x :
  built_from base vocab st →
  built_from base (vocab ++ [x]) (init_step st x).
Proof.
  destruct st as [[o2i i2o] idx]. intros (Hidx & Ho & Hi & Hso & Hsi).
  unfold init_step.
  destruct (o2i !! x) as [i|] eqn:Hx; unfold built_from;
    rewrite first_occurrences_snoc.
  - (* already seen *)
    apply Ho in Hx as (k & _ & Hk).
    apply list_elem_of_lookup_2 in Hk. rewrite elem_of_first_occurrences in Hk.
    rewrite decide_True by done. rewrite app_nil_r. done.
  - (* a new object *)
    assert (Hnew : x ∉ first_occurrences vocab).
    { intros (k & Hk)%list_elem_of_lookup_1.
      assert (o2i !! x = Some (base + Z.of_nat k)) as Hs by (apply Ho; eauto).
      congruence. }
    assert (Hfree : i2o !! idx = None).
    { destruct (i2o !! idx) as [y|] eqn:Hy; [|done].
      apply Hi in Hy as (k & Hk & Hlk). apply lookup_lt_Some in Hlk. lia. }
    rewrite decide_False by (by rewrite <- elem_of_first_occurrences).
    rewrite length_app. simpl.
    split; [lia|]. split; [|split; [|split]].
    + intros y i. setoid_rewrite lookup_snoc_Some.
      destruct (decide (x = y)) as [<-|Hne].
      * rewrite lookup_insert_eq. split.
        -- intros [= <-]. exists (length (first_occurrences vocab)).
           split; [lia | by right].
        -- intros (k & -> & [[_ Hk]|[-> _]]).
           ++ apply list_elem_of_lookup_2 in Hk. done.
           ++ f_equal. lia.
      * rewrite lookup_insert_ne by done. rewrite Ho. split.
        -- intros (k & -> & Hk). exists k. split; [done|].
           left. split; [by eapply lookup_lt_Some | done].
        -- intros (k & -> & [[_ Hk]|[_ ?]]); [eauto | done].
    + intros i y. setoid_rewrite lookup_snoc_Some.
      destruct (decide (idx = i)) as [<-|Hne].
      * rewrite lookup_insert_eq. split.
        -- intros [= <-]. exists (length (first_occurrences vocab)).
           split; [lia | by right].
        -- intros (k & Hk & [[Hlt _]|[_ ->]]); [lia | done].
      * rewrite lookup_insert_ne by done. rewrite Hi. split.
        -- intros (k & -> & Hk). exists k. split; [done|].
           left. split; [by eapply lookup_lt_Some | done].
        -- intros (k & -> & [[_ Hk]|[-> _]]); [eauto | lia].
    + rewrite map_size_insert_None by done. lia.
    + rewrite map_size_insert_None by done. lia.
Qed.

Lemma init_loop_snoc vocab x base :
  init_loop (vocab ++ [x]) base = init_step (init_loop vocab base) x.
Proof. unfold init_loop. by rewrite foldl_snoc. Qed.

Lemma init_loop_built base vocab :
  built_from base vocab (init_loop vocab base).
Proof.
  induction vocab as [|x vocab IH] using rev_ind.
  - apply built_from_nil.
  - rewrite init_loop_snoc. by apply built_from_step.
Qed.

(** The fields of a constructed index, in closed form. *)
Lemma Index_init_fields vocab base :
  let self := Index_init vocab base in
  start self = base
  ∧ not_in_index self = base - 1
  ∧ vocab_size self = Z.of_nat (length (first_occurrences vocab))
  ∧ (∀ obj i, object_to_index self !! obj = Some i ↔
       ∃ k, i = base + Z.of_nat k ∧ first_occurrences vocab !! k = Some obj)
  ∧ (∀ i obj, index_to_object self !! i = Some obj ↔
       ∃ k, i = base + Z.of_nat k ∧ first_occurrences vocab !! k = Some obj)
  ∧ size (object_to_index self) = length (first_occurrences vocab)
  ∧ size (index_to_object self) = length (first_occurrences vocab).
Proof.
  pose proof (init_loop_built base vocab) as Hb.
  unfold Index_init. destruct (init_loop vocab base) as [[o2i i2o] idx].
  destruct Hb as (Hidx & Ho & Hi & Hso & Hsi). simpl.
  repeat split; try done; try lia; try apply Ho; try apply Hi.
Qed.

Lemma Index_init_nil base :
  Index_init (@nil Obj) base = MkIndex base ∅ ∅ 0 (base - 1).
Proof. unfold Index_init. simpl. f_equal. lia. Qed.

(** A further occurrence of an object already read changes nothing. *)
Lemma Index_init_snoc_seen vocab x base :
  x ∈ vocab → Index_init (vocab ++ [x]) base = Index_init vocab base.
Proof.
  intros Hin. pose proof (init_loop_built base vocab) as Hb.
  unfold Index_init. rewrite init_loop_snoc.
  destruct (init_loop vocab base) as [[o2i i2o] idx].
  destruct Hb as (_ & Ho & _). unfold init_step.
  apply elem_of_first_occurrences, list_elem_of_lookup_1 in Hin as [k Hk].
  assert (o2i !! x = Some (base + Z.of_nat k)) as -> by (apply Ho; eauto).
  done.
Qed.

(** An object read for the first time gets the next index, in both
    dicts. *)
Lemma Index_init_snoc_new vocab x base :
  x ∉ vocab →
  let self := Index_init vocab base in
  Index_init (vocab ++ [x]) base =
  MkIndex base
    (<[x := base + vocab_size self]> (object_to_index self))
    (<[base + vocab_size self := x]> (index_to_object self))
    (vocab_size self + 1) (base - 1).
Proof.
  intros Hnotin. pose proof (init_loop_built base vocab) as Hb.
  unfold Index_init. rewrite init_loop_snoc.
  destruct (init_loop vocab base) as [[o2i i2o] idx].
  destruct Hb as (Hidx & Ho & _). unfold init_step.
  destruct (o2i !! x) as [i|] eqn:Hx.
  - apply Ho in Hx as (k & _ & Hk).
    apply list_elem_of_lookup_2 in Hk.
    rewrite elem_of_first_occurrences in Hk. done.
  - simpl. replace (base + (idx - base)) with idx by lia.
    f_equal. lia.
Qed.

Lemma Index_init_invariant vocab base :
  index_invariant (Index_init vocab base).
Proof.
  destruct (Index_init_fields vocab base)
    as (Hst & Hnot & Hvs & Ho & Hi & Hso & Hsi).
  set (self := Index_init vocab base) in *.
  assert (Hrange : ∀ i, is_Some (index_to_object self !! i) ↔
            start self ≤ i ≤ start self + vocab_size self - 1).
  { intros i. rewrite Hst, Hvs. split.
    - intros [obj (k & -> & Hk)%Hi]. apply lookup_lt_Some in Hk. lia.
    - intros Hi'.
      destruct (lookup_lt_is_Some_2 (first_occurrences vocab)
                  (Z.to_nat (i - base))) as [obj Hobj]; [lia|].
      exists obj. apply Hi. exists (Z.to_nat (i - base)). split; [lia|done]. }
  split.
  - intros obj i. by rewrite Ho, Hi.
  - exact Hrange.
  - intros obj obj' i (k & -> & Hk)%Ho (k' & Hk' & Hk2)%Ho.
    assert (k' = k) as -> by lia. congruence.
  - lia.
  - by rewrite Hnot, Hst.
  - destruct (index_to_object self !! not_in_index self) eqn:Hl; [|done].
    assert (is_Some (index_to_object self !! not_in_index self)) as Hs by eauto.
    apply Hrange in Hs. lia.
Qed.

(** No call changes the object. *)
Lemma call_unchanged (self : Index Obj) (op : operation Obj) :
  fst (call self op) = self.
Proof. by destruct op. Qed.

Lemma after_calls_unchanged (self : Index Obj) (ops : list (operation Obj)) :
  after_calls self ops = self.
Proof.
  unfold after_calls. induction ops as [|op ops IH]; simpl; [done|].
  by rewrite call_unchanged.
Qed.

End Construction.

(** ** Index encoding and decoding *)

Section IndexEncoding.
Context {Obj : Type} `{Countable Obj}.
Implicit Types (self : Index Obj) (vocab object_seq : list Obj) (obj : Obj).

(** The keys of [object_to_index] are the objects of the vocabulary. *)
Lemma Index_init_known vocab base obj :
  is_Some (object_to_index (Index_init vocab base) !! obj) ↔ obj ∈ vocab.
Proof.
  destruct (Index_init_fields vocab base) as (_ & _ & _ & Ho & _).
  rewrite <- elem_of_first_occurrences, list_elem_of_lookup. split.
  - intros [i (k & _ & Hk)%Ho]. eauto.
  - intros [k Hk]. exists (base + Z.of_nat k). apply Ho. eauto.
Qed.

Lemma Index_init_unknown vocab base obj :
  object_to_index (Index_init vocab base) !! obj = None ↔ obj ∉ vocab.
Proof. by rewrite <- Index_init_known, eq_None_not_Some. Qed.

Lemma length_index_list self object_seq :
  length (index_list self object_seq) = length object_seq.
Proof. unfold index_list. apply length_map. Qed.

Lemma lookup_index_list self object_seq (n : nat) :
  index_list self object_seq !! n =
  (λ obj, default (not_in_index self) (object_to_index self !! obj))
    <$> object_seq !! n.
Proof. unfold index_list. apply (list_lookup_fmap _ object_seq n). Qed.

(** Every index of a constructed vocabulary lies between [start] and
    [start + vocab_size - 1]. *)
Lemma Index_init_index_range vocab base obj (idx : Z) :
  object_to_index (Index_init vocab base) !! obj = Some idx →
  start (Index_init vocab base) ≤ idx
  ≤ start (Index_init vocab base) + vocab_size (Index_init vocab base) - 1.
Proof.
  intros Hidx. pose proof (Index_init_invariant vocab base) as Hinv.
  apply (inv_inverse _ Hinv) in Hidx. apply (inv_range _ Hinv). eauto.
Qed.

Lemma Index_init_vocab_size_nonneg vocab base :
  0 ≤ vocab_size (Index_init vocab base).
Proof.
  destruct (Index_init_fields vocab base) as (_ & _ & Hvs & _). lia.
Qed.

(** The integers that the encoders store fit when the sentinel and the
    largest index fit. *)
Lemma index_list_fits vocab base object_seq :
  values_fit (Index_init vocab base) →
  Forall fits_int64 (index_list (Index_init vocab base) object_seq).
Proof.
  intros [Hlo Hhi].
  pose proof (Index_init_vocab_size_nonneg vocab base) as Hvs.
  pose proof (Index_init_invariant vocab base) as Hinv.
  rewrite (inv_sentinel _ Hinv) in Hlo.
  induction object_seq as [|obj rest IH]; [constructor|].
  change (index_list ?self (obj :: rest))
    with (default (not_in_index self) (object_to_index self !! obj)
          :: index_list self rest).
  constructor; [|done].
  destruct (object_to_index (Index_init vocab base) !! obj) as [idx|] eqn:Hidx;
    simpl.
  - apply Index_init_index_range in Hidx. unfold fits_int64. lia.
  - rewrite (inv_sentinel _ Hinv). unfold fits_int64. lia.
Qed.

Lemma index_list_known_fits vocab base object_seq :
  indexes_fit (Index_init vocab base) →
  Forall (λ obj, is_Some (object_to_index (Index_init vocab base) !! obj))
         object_seq →
  Forall fits_int64 (index_list (Index_init vocab base) object_seq).
Proof.
  intros [Hlo Hhi]. induction 1 as [|obj rest [idx Hidx] _ IH]; [constructor|].
  change (index_list ?self (obj :: rest))
    with (default (not_in_index self) (object_to_index self !! obj)
          :: index_list self rest).
  constructor; [|done]. rewrite Hidx. simpl.
  apply Index_init_index_range in Hidx. unfold fits_int64. lia.
Qed.

(** Decoding the indexes of objects that all have an index gives the
    objects back, for any index whose two dicts are inverses. *)
Lemma decode_encode self object_seq :
  index_invariant self →
  Forall (λ obj, is_Some (object_to_index self !! obj)) object_seq →
  indexes_to_objects self (index_list self object_seq) = Ok object_seq.
Proof.
  intros Hinv. induction 1 as [|obj rest [i Hi] _ IH]; simpl; [done|].
  rewrite Hi. simpl.
  assert (index_to_object self !! i = Some obj) as Hback
    by (by apply (inv_inverse _ Hinv)).
  rewrite decide_True by eauto.
  unfold dict_getitem. rewrite Hback. simpl.
  by rewrite IH.
Qed.

Lemma foldl_max_foldr (a : nat) (l : list nat) :
  foldl Nat.max a l = Nat.max a (foldr Nat.max 0%nat l).
Proof.
  revert a; induction l as [|b l IH]; intros a; simpl; [lia|].
  rewrite IH. lia.
Qed.

Lemma py_max_lengths {A : Type} (s : list A) (ss : list (list A)) :
  py_max (map length (s :: ss)) = Ok (max_length_of (s :: ss)).
Proof. unfold max_length_of. simpl. by rewrite foldl_max_foldr. Qed.

Lemma max_length_of_bound {A : Type} (ss : list (list A)) (s : list A) :
  s ∈ ss → (length s ≤ max_length_of ss)%nat.
Proof.
  unfold max_length_of. induction 1 as [s ss|s s' ss _ IH]; simpl; lia.
Qed.

(** The loop of [objects_to_index_matrix] fills row after row; the rows
    [pre] written before stay, and no slice assignment fails as long as
    no sequence is longer than the matrix is wide and the integers of
    every row fit. *)
Lemma index_matrix_loop_fills self (w r : nat) (rest : list (list Obj)) :
  ∀ pre : list (list Z),
    Forall (λ s, (length s ≤ w)%nat) rest →
    Forall (λ s, Forall fits_int64 (index_list self s)) rest →
    index_matrix_loop self (length pre) rest
      (NdArray2 (r, w)
         (pre ++ replicate (length rest) (replicate w (not_in_index self))))
    = Ok (NdArray2 (r, w) (pre ++ map (padded_row self w) rest)).
Proof.
  induction rest as [|s rest IH]; intros pre Hle Hfit; simpl; [done|].
  apply Forall_cons in Hle as [Hs Hrest].
  apply Forall_cons in Hfit as [Hfs Hfrest].
  unfold np_setrow_prefix. simpl.
  rewrite list_lookup_middle by done.
  rewrite decide_True by done.
  rewrite length_index_list, Nat.min_l by done.
  rewrite decide_True by done. simpl.
  replace (<[length pre := _]> (pre ++ _ :: _)) with
    ((pre ++ [padded_row self w s])
       ++ replicate (length rest) (replicate w (not_in_index self))).
  - specialize (IH (pre ++ [padded_row self w s]) Hrest Hfrest).
    rewrite length_app, Nat.add_1_r in IH. simpl in IH.
    rewrite IH. by rewrite <- app_assoc.
  - rewrite <- app_assoc. simpl.
    rewrite insert_app_r_alt, Nat.sub_diag by done. simpl.
    unfold padded_row. by rewrite drop_replicate.
Qed.

(** [objects_to_index_matrix] on a batch that is not empty, when the
    shape is accepted and the integers fit. *)
Lemma objects_to_index_matrix_cons self (s : list Obj) (ss : list (list Obj)) :
  let w := max_length_of (s :: ss) in
  array_bytes [Z.of_nat (length (s :: ss)); Z.of_nat w] ≤ int64_max →
  fits_int64 (not_in_index self) →
  Forall (λ s', Forall fits_int64 (index_list self s')) (s :: ss) →
  objects_to_index_matrix self (s :: ss) =
  Ok (NdArray2 (length (s :: ss), w) (map (padded_row self w) (s :: ss))).
Proof.
  intros w Hshape Hsent Hfit. unfold objects_to_index_matrix.
  rewrite py_max_lengths. fold w. rewrite bind_Ok. unfold np_full2.
  rewrite np_check_shape_2 by lia.
  rewrite (decide_True (P := array_bytes _ ≤ _)) by done. rewrite bind_Ok.
  rewrite (decide_True (P := fits_int64 _)) by done. rewrite bind_Ok.
  apply (index_matrix_loop_fills self w (length (s :: ss)) (s :: ss) []);
    [|done].
  apply Forall_forall. intros s' Hs'. by apply max_length_of_bound.
Qed.

Lemma padded_row_full self (w : nat) object_seq :
  length object_seq = w →
  padded_row self w object_seq = index_list self object_seq.
Proof.
  intros <-. unfold padded_row. rewrite Nat.sub_diag. apply app_nil_r.
Qed.

Lemma length_padded_row self (w : nat) object_seq :
  (length object_seq ≤ w)%nat → length (padded_row self w object_seq) = w.
Proof.
  intros Hle. unfold padded_row.
  rewrite length_app, length_index_list, length_replicate. lia.
Qed.

End IndexEncoding.

(** ** One-hot encoding and decoding *)

Section OneHot.
Context {Obj : Type} `{Countable Obj}.
Implicit Types (self : Index Obj) (vocab object_seq : list Obj) (obj : Obj).
Implicit Types (vector vec : list Z).

Lemma lookup_marked self object_seq vector (i : nat) :
  marked self object_seq vector !! i =
  (λ b, if decide (Exists (λ obj, object_to_index self !! obj
                                  = Some (Z.of_nat i)) object_seq)
        then 1 else b) <$> vector !! i.
Proof. unfold marked. apply list_lookup_imap. Qed.

Lemma marked_nil self vector : marked self [] vector = vector.
Proof.
  apply list_eq. intros i. rewrite lookup_marked.
  by destruct (vector !! i).
Qed.

Lemma marked_skip self obj object_seq vector :
  object_to_index self !! obj = None →
  marked self (obj :: object_seq) vector = marked self object_seq vector.
Proof.
  intros Hnone. apply list_eq. intros i. rewrite !lookup_marked.
  destruct (vector !! i) as [b|]; simpl; [|done]. f_equal.
  apply decide_ext. rewrite Exists_cons, Hnone.
  split; [intros [?|?]; done | by right].
Qed.

Lemma marked_write self obj object_seq vector (n : nat) :
  object_to_index self !! obj = Some (Z.of_nat n) →
  marked self object_seq (<[n := 1]> vector)
  = marked self (obj :: object_seq) vector.
Proof.
  intros Hn. apply list_eq. intros i. rewrite !lookup_marked.
  destruct (decide (i = n)) as [->|Hne].
  - destruct (decide (n < length vector)%nat) as [Hlt|Hge].
    + rewrite list_lookup_insert_eq by done.
      destruct (lookup_lt_is_Some_2 vector n Hlt) as [b ->]. simpl.
      rewrite (decide_True (P := Exists _ (obj :: _)))
        by (by apply Exists_cons_hd).
      by case_decide.
    + rewrite list_insert_ge by lia.
      by rewrite (lookup_ge_None_2 vector n) by lia.
  - rewrite list_lookup_insert_ne by done.
    destruct (vector !! i) as [b|]; simpl; [|done]. f_equal.
    apply decide_ext. rewrite Exists_cons, Hn.
    split; [tauto|]. intros [[= ?]|?]; [lia|done].
Qed.

Lemma length_marked self object_seq vector :
  length (marked self object_seq vector) = length vector.
Proof. unfold marked. apply length_imap. Qed.

(** The loop of [objects_to_binary_vector] raises nothing when every
    index it writes at is a position of the vector. *)
Lemma binary_vector_loop_marks self object_seq :
  ∀ vector,
    Forall (λ idx, 0 ≤ idx < Z.of_nat (length vector))
           (write_indexes self object_seq) →
    binary_vector_loop self object_seq vector
    = Ok (marked self object_seq vector).
Proof.
  unfold write_indexes.
  induction object_seq as [|obj rest IH]; intros vector Hin; simpl.
  - by rewrite marked_nil.
  - simpl in Hin. destruct (object_to_index self !! obj) as [idx|] eqn:Hidx;
      simpl in Hin.
    + apply Forall_cons in Hin as [Hrange Hin].
      unfold np_setitem. rewrite decide_True by done. rewrite bind_Ok.
      rewrite IH by (by rewrite length_insert).
      f_equal. apply marked_write. rewrite Hidx. f_equal. lia.
    + rewrite IH by done. by rewrite marked_skip.
Qed.

Lemma marked_zeros self object_seq :
  marked self object_seq
    (replicate (Z.to_nat (vocab_size self + start self)) 0)
  = one_hot self object_seq.
Proof.
  apply list_eq. intros i. rewrite lookup_marked. unfold one_hot.
  rewrite list_lookup_fmap.
  destruct (decide (i < Z.to_nat (vocab_size self + start self))%nat)
    as [Hlt|Hge].
  - rewrite lookup_replicate_2 by done.
    assert (seq 0 (Z.to_nat (vocab_size self + start self)) !! i = Some i)
      as -> by (by apply lookup_seq).
    done.
  - rewrite (lookup_ge_None_2 (replicate _ _)) by (rewrite length_replicate; lia).
    by rewrite (lookup_ge_None_2 (seq _ _)) by (rewrite length_seq; lia).
Qed.

Lemma length_one_hot self object_seq :
  length (one_hot self object_seq)
  = Z.to_nat (vocab_size self + start self).
Proof. unfold one_hot. by rewrite length_fmap, length_seq. Qed.

Lemma lookup_one_hot self object_seq (i : nat) :
  (i < Z.to_nat (vocab_size self + start self))%nat →
  one_hot self object_seq !! i =
  Some (if decide (Exists (λ obj, object_to_index self !! obj
                                  = Some (Z.of_nat i)) object_seq)
        then 1 else 0).
Proof.
  intros Hlt. unfold one_hot. rewrite list_lookup_fmap.
  assert (seq 0 (Z.to_nat (vocab_size self + start self)) !! i = Some i)
    as -> by (by apply lookup_seq).
  done.
Qed.

(** The one-hot vector depends only on which objects occur. *)
Lemma one_hot_same_objects self (l l' : list Obj) :
  (∀ obj, obj ∈ l ↔ obj ∈ l') → one_hot self l = one_hot self l'.
Proof.
  intros Hsame. unfold one_hot. apply list_fmap_ext. intros _ i _.
  apply decide_ext. rewrite !Exists_exists.
  split; intros (obj & Hin & Hidx); exists obj; (split; [by apply Hsame|done]).
Qed.

(** Every index of a constructed vocabulary is a position of the one-hot
    vector when [start] is not negative. *)
Lemma Index_init_index_bounds vocab base obj (idx : Z) :
  0 ≤ base →
  object_to_index (Index_init vocab base) !! obj = Some idx →
  0 ≤ idx < vocab_size (Index_init vocab base) + start (Index_init vocab base).
Proof.
  intros Hbase Hidx.
  pose proof (Index_init_invariant vocab base) as Hinv.
  destruct (Index_init_fields vocab base) as (Hst & _ & Hvs & _).
  apply (inv_inverse _ Hinv) in Hidx.
  assert (is_Some (index_to_object (Index_init vocab base) !! idx)) as Hs
    by eauto.
  apply (inv_range _ Hinv) in Hs. lia.
Qed.

Lemma Index_init_writes_in_bounds vocab base object_seq :
  0 ≤ base →
  Forall (λ idx, 0 ≤ idx < vocab_size (Index_init vocab base)
                           + start (Index_init vocab base))
         (write_indexes (Index_init vocab base) object_seq).
Proof.
  intros Hbase. unfold write_indexes. apply Forall_forall. intros idx.
  rewrite list_elem_of_omap. intros (obj & _ & Hidx).
  by eapply Index_init_index_bounds.
Qed.

(** When [start] is not negative the call fails only if the vector
    cannot be created. *)
Lemma objects_to_binary_vector_one_hot vocab base object_seq :
  0 ≤ base →
  objects_to_binary_vector (Index_init vocab base) object_seq
  = (np_zeros (vocab_size (Index_init vocab base)
               + start (Index_init vocab base))
     ≫= λ _, Ok (one_hot (Index_init vocab base) object_seq)).
Proof.
  intros Hbase. set (self := Index_init vocab base).
  unfold objects_to_binary_vector. rewrite np_zeros_cases.
  case_decide as Hw; [|by repeat case_decide].
  rewrite !bind_Ok. rewrite binary_vector_loop_marks.
  - by rewrite marked_zeros.
  - rewrite length_replicate, Z2Nat.id by lia.
    by apply Index_init_writes_in_bounds.
Qed.

Lemma objects_to_binary_vector_ok vocab base object_seq :
  0 ≤ base →
  vocab_size (Index_init vocab base) + start (Index_init vocab base)
  ≤ max_array_elems →
  objects_to_binary_vector (Index_init vocab base) object_seq
  = Ok (one_hot (Index_init vocab base) object_seq).
Proof.
  intros Hbase Hmax. rewrite objects_to_binary_vector_one_hot by done.
  rewrite np_zeros_ok; [done|].
  destruct (Index_init_fields vocab base) as (Hst & _ & Hvs & _). lia.
Qed.

(** The loop of [objects_to_binary_vector] is the sequence of statements
    [vector[idx] = 1] for the indexes of the objects that have one. *)
Lemma binary_vector_loop_writes self object_seq :
  ∀ vector,
    binary_vector_loop self object_seq vector
    = write_ones vector (write_indexes self object_seq).
Proof.
  unfold write_indexes.
  induction object_seq as [|obj rest IH]; intros vector; simpl; [done|].
  destruct (object_to_index self !! obj) as [idx|]; simpl; [|apply IH].
  destruct (np_setitem vector idx 1) as [vector'|e]; simpl; [apply IH|done].
Qed.

(** The scan of [binary_vector_to_objects], started after the positions
    [pre], emits the objects of the remaining set positions in order. *)
Lemma binary_vector_scan_positions self vec :
  ∀ pre : list Z,
    binary_vector_scan self (Z.of_nat (length pre)) vec
    = Ok (omap (λ i : nat, index_to_object self !! Z.of_nat i)
               (filter (λ i : nat, (pre ++ vec) !! i = Some 1)
                       (seq (length pre) (length vec)))).
Proof.
  induction vec as [|val rest IH]; intros pre; simpl; [done|].
  specialize (IH (pre ++ [val])).
  rewrite length_app, Nat.add_1_r, Nat2Z.inj_succ, <- Z.add_1_r in IH.
  rewrite <- app_assoc in IH. simpl in IH.
  rewrite filter_cons, list_lookup_middle by done.
  destruct (decide (val = 1)) as [->|Hne].
  - rewrite (decide_True (P := Some 1 = Some 1)) by done. simpl.
    destruct (index_to_object self !! Z.of_nat (length pre)) as [obj|] eqn:Hobj.
    + rewrite decide_True by eauto.
      unfold dict_getitem. rewrite Hobj, bind_Ok. by rewrite IH.
    + rewrite decide_False by (intros [_ [? ?]]; done). by rewrite IH.
  - rewrite decide_False by tauto.
    rewrite (decide_False (P := Some val = Some 1)) by congruence.
    by rewrite IH.
Qed.

Lemma binary_vector_to_objects_positions self vec :
  binary_vector_to_objects self vec = Ok (set_objects_in_index_order self vec).
Proof. apply (binary_vector_scan_positions self vec []). Qed.

Lemma elem_of_set_objects self vec obj :
  obj ∈ set_objects_in_index_order self vec ↔
  ∃ i : nat, vec !! i = Some 1 ∧ index_to_object self !! Z.of_nat i = Some obj.
Proof.
  unfold set_objects_in_index_order. rewrite list_elem_of_omap.
  setoid_rewrite list_elem_of_filter. split.
  - intros (i & [Hone _] & Hobj). eauto.
  - intros (i & Hone & Hobj). exists i. repeat split; try done.
    apply elem_of_seq. apply lookup_lt_Some in Hone. lia.
Qed.

End OneHot.

(** * The claims of the specification *)

Section Claims.
Context {Obj : Type} `{Countable Obj}.
Implicit Types (vocab object_seq : list Obj) (base : Z).

(** C1, amended (round trip): for every vocabulary, every sequence whose
    objects all occur in the vocabulary and every [start] for which the
    indexes of the vocabulary fit a signed 64-bit integer,
    [objects_to_indexes] returns an index vector and decoding it with
    [indexes_to_objects] returns the sequence itself: the same objects, in
    the same order, as many. *)
Theorem index_round_trip vocab base object_seq :
  object_seq ⊆ vocab →
  let self := Index_init vocab base in
  indexes_fit self →
  ∃ index_vector,
    objects_to_indexes self object_seq = Ok index_vector
    ∧ indexes_to_objects self index_vector = Ok object_seq.
Proof.
  intros Hsub self Hfit.
  assert (Hknown : Forall (λ obj, is_Some (object_to_index self !! obj))
                          object_seq).
  { apply Forall_forall. intros obj Hobj. apply Index_init_known. auto. }
  exists (index_list self object_seq). split.
  - apply np_array_int_fits. by apply index_list_known_fits.
  - apply decode_encode; [apply Index_init_invariant | done].
Qed.

(** C2 (construction): [__init__] reads the vocabulary once, from left to
    right.  Reading one more object [x] after [vocab] changes nothing when
    [x] already occurs in [vocab]; otherwise [x] gets the index
    [start + vocab_size] (the index after the last one given) in both dicts
    and [vocab_size] grows by one.  Hence the [k]-th distinct object in
    order of first occurrence has index [start + k], [vocab_size] is the
    number of distinct objects and [not_in_index] is [start - 1].  For
    ["b"; "a"; "b"; "c"] and [start = 0]: b:0, a:1, c:2, [vocab_size = 3],
    [not_in_index = -1]. *)
Theorem init_assigns_by_first_occurrence :
  (∀ base, Index_init (@nil Obj) base = MkIndex base ∅ ∅ 0 (base - 1))
  ∧ (∀ vocab (x : Obj) base,
       let self := Index_init vocab base in
       Index_init (vocab ++ [x]) base =
       if decide (x ∈ vocab) then self
       else MkIndex base
              (<[x := base + vocab_size self]> (object_to_index self))
              (<[base + vocab_size self := x]> (index_to_object self))
              (vocab_size self + 1) (base - 1))
  ∧ (∀ vocab base,
       let self := Index_init vocab base in
       start self = base
       ∧ not_in_index self = base - 1
       ∧ vocab_size self = Z.of_nat (length (first_occurrences vocab))
       ∧ (∀ obj (i : Z), object_to_index self !! obj = Some i ↔
            ∃ k : nat, i = base + Z.of_nat k
                       ∧ first_occurrences vocab !! k = Some obj)
       ∧ (∀ (i : Z) obj, index_to_object self !! i = Some obj ↔
            ∃ k : nat, i = base + Z.of_nat k
                       ∧ first_occurrences vocab !! k = Some obj))
  ∧ (let self := Index_init ["b"; "a"; "b"; "c"]%string 0 in
     object_to_index self = {[ "b" := 0; "a" := 1; "c" := 2 ]}%string
     ∧ index_to_object self = {[ 0 := "b"; 1 := "a"; 2 := "c" ]}%string
     ∧ vocab_size self = 3
     ∧ not_in_index self = -1).
Proof.
  split; [|split; [|split]].
  - apply Index_init_nil.
  - intros vocab x base self. case_decide.
    + by apply Index_init_snoc_seen.
    + by apply Index_init_snoc_new.
  - intros vocab base self.
    destruct (Index_init_fields vocab base) as (? & ? & ? & ? & ? & _).
    done.
  - by vm_compute.
Qed.

(** C3 (invariants): whatever sequence of method calls follows the
    construction, the object is the one that was constructed, and in it
    [object_to_index] and [index_to_object] are inverses of one another,
    the keys of [index_to_object] are exactly the integers from [start] to
    [start + vocab_size - 1], no two objects share an index, both dicts
    have [vocab_size] entries, and [not_in_index = start - 1] is not a key
    of [index_to_object]. *)
Theorem invariants_hold_after_every_call vocab base
    (ops : list (operation Obj)) :
  let self := after_calls (Index_init vocab base) ops in
  self = Index_init vocab base
  ∧ (∀ op, fst (call self op) = self)
  ∧ index_invariant self.
Proof.
  intros self. unfold self. rewrite after_calls_unchanged.
  split; [done|]. split; [apply call_unchanged | apply Index_init_invariant].
Qed.

(** C4 (empty outer sequence of [objects_to_index_matrix]): the method has
    no guard for this case; its first statement computes the maximum over
    an empty collection, and the call ends with the [ValueError] of
    [max()], for every index. *)
Theorem index_matrix_of_no_sequence_raises (self : Index Obj) :
  py_max (map length (@nil (list Obj))) = Raise ValueError_max_empty
  ∧ objects_to_index_matrix self [] = Raise ValueError_max_empty.
Proof. by split. Qed.

(** C5, amended ([objects_to_indexes]): when the sentinel [start - 1] and
    the largest index [start + vocab_size - 1] fit a signed 64-bit
    integer, the call returns a vector of the length of the input;
    position [n] holds the index of the [n]-th object when the object has
    one and [start - 1] when it has none, and the objects without an index
    are those that do not occur in the vocabulary. *)
Theorem objects_to_indexes_positions vocab base object_seq :
  let self := Index_init vocab base in
  values_fit self →
  objects_to_indexes self object_seq = Ok (index_list self object_seq)
  ∧ length (index_list self object_seq) = length object_seq
  ∧ (∀ n : nat,
       index_list self object_seq !! n =
       (λ obj, match object_to_index self !! obj with
               | Some i => i
               | None => base - 1
               end) <$> object_seq !! n)
  ∧ (∀ obj, object_to_index self !! obj = None ↔ obj ∉ vocab)
  ∧ not_in_index self = base - 1.
Proof.
  intros self Hfit.
  destruct (Index_init_fields vocab base) as (_ & Hnot & _).
  fold self in Hnot.
  split; [by apply np_array_int_fits, index_list_fits|].
  split; [apply length_index_list|]. split; [|split].
  - intros n. rewrite lookup_index_list, Hnot.
    destruct (object_seq !! n) as [obj|]; simpl; [|done].
    by destruct (object_to_index self !! obj).
  - intros obj. apply Index_init_unknown.
  - done.
Qed.

(** C6, amended ([objects_to_index_matrix]): for an outer sequence that
    is not empty, when the sentinel and the largest index fit a signed
    64-bit integer and numpy accepts the shape (8 bytes for each of the
    rows times columns elements, within the signed 64-bit range), the call
    raises nothing and returns a matrix with one row per inner sequence
    and as many columns as the longest inner sequence has objects; each
    row is the list of indexes of its sequence, as [objects_to_indexes]
    returns it, followed by [start - 1] repeated up to that width, which
    is no padding at all for a sequence of the largest length. *)
Theorem index_matrix_rows_padded vocab base
    (object_seq_seq : list (list Obj)) :
  object_seq_seq ≠ [] →
  let self := Index_init vocab base in
  let w := max_length_of object_seq_seq in
  values_fit self →
  array_bytes [Z.of_nat (length object_seq_seq); Z.of_nat w] ≤ int64_max →
  objects_to_index_matrix self object_seq_seq =
    Ok (NdArray2 (length object_seq_seq, w)
          (map (λ s, index_list self s
                     ++ replicate (w - length s) (base - 1))
               object_seq_seq))
  ∧ Forall (λ s, objects_to_indexes self s = Ok (index_list self s))
           object_seq_seq
  ∧ Forall (λ s, (length s ≤ w)%nat) object_seq_seq
  ∧ Exists (λ s, length s = w ∧
                 index_list self s ++ replicate (w - length s) (base - 1)
                 = index_list self s) object_seq_seq.
Proof.
  intros Hne self w Hfit Hshape. destruct object_seq_seq as [|s ss]; [done|].
  destruct (Index_init_fields vocab base) as (Hst & Hnot & _).
  fold self in Hst, Hnot.
  assert (Hrows : ∀ s', Forall fits_int64 (index_list self s'))
    by (intros s'; by apply index_list_fits).
  split; [|split; [|split]].
  - rewrite objects_to_index_matrix_cons; fold w; try done.
    + unfold padded_row. by rewrite Hnot.
    + destruct Hfit as [Hlo Hhi].
      pose proof (Index_init_vocab_size_nonneg vocab base) as Hvs.
      fold self in Hvs. unfold fits_int64. lia.
    + apply Forall_forall. intros s' _. apply Hrows.
  - apply Forall_forall. intros s' _. apply np_array_int_fits, Hrows.
  - apply Forall_forall. intros s' Hs'. by apply max_length_of_bound.
  - assert (Hex : Exists (λ s', length s' = w) (s :: ss)).
    { unfold w, max_length_of. clear.
      induction ss as [|s' ss IH] in s |- *; simpl.
      - left. simpl. lia.
      - destruct (Nat.max_spec (length s)
                    (Nat.max (length s') (foldr Nat.max 0%nat (map length ss))))
          as [[Hlt ->]|[Hge ->]].
        + right. apply (IH s').
        + by left. }
    eapply Exists_impl; [exact Hex|]. intros s' Hs'. split; [done|].
    rewrite Hs', Nat.sub_diag. apply app_nil_r.
Qed.

(** C7, amended ([objects_to_binary_vector] when [start] is not negative
    and [vocab_size + start] is at most [2^60 - 1], the largest length of
    an array of 64-bit integers): the call raises nothing and returns a
    vector of length [vocab_size + start] that holds 1 at every position
    that is the index of an object of the input and 0 at every other
    position.  Objects outside the vocabulary leave no trace, and a
    repeated object counts once: the sequence without its
    out-of-vocabulary objects and the sequence without its repetitions
    give the same vector. *)
Theorem binary_vector_is_one_hot vocab base object_seq :
  0 ≤ base →
  let self := Index_init vocab base in
  vocab_size self + start self ≤ max_array_elems →
  objects_to_binary_vector self object_seq = Ok (one_hot self object_seq)
  ∧ Z.of_nat (length (one_hot self object_seq)) = vocab_size self + start self
  ∧ Forall (λ b, b = 0 ∨ b = 1) (one_hot self object_seq)
  ∧ (∀ i : nat,
       one_hot self object_seq !! i = Some 1 ↔
       ∃ obj, obj ∈ object_seq ∧ obj ∈ vocab
              ∧ object_to_index self !! obj = Some (Z.of_nat i))
  ∧ objects_to_binary_vector self (filter (λ obj, obj ∈ vocab) object_seq)
    = objects_to_binary_vector self object_seq
  ∧ objects_to_binary_vector self (first_occurrences object_seq)
    = objects_to_binary_vector self object_seq
  ∧ objects_to_binary_vector self (remove_dups object_seq)
    = objects_to_binary_vector self object_seq.
Proof.
  intros Hbase self Hmax. subst self.
  rewrite !objects_to_binary_vector_ok by done.
  set (self := Index_init vocab base).
  assert (Hw : 0 ≤ vocab_size self + start self).
  { destruct (Index_init_fields vocab base) as (Hst & _ & Hvs & _).
    fold self in Hst, Hvs. lia. }
  assert (Hknown : ∀ obj (i : Z),
            object_to_index self !! obj = Some i → obj ∈ vocab).
  { intros obj i Hi. apply (Index_init_known vocab base). fold self. eauto. }
  split; [done|]. split; [rewrite length_one_hot; lia|].
  split; [|split; [|split; [|split]]].
  - unfold one_hot. apply Forall_fmap, Forall_true. intros i. simpl.
    case_decide; auto.
  - intros i.
    destruct (decide (i < Z.to_nat (vocab_size self + start self))%nat)
      as [Hlt|Hge].
    + rewrite lookup_one_hot by done. case_decide as Hex.
      * apply Exists_exists in Hex as (obj & Hin & Hidx).
        split; [|done]. intros _. exists obj. eauto.
      * split; [done|]. intros (obj & Hin & _ & Hidx).
        destruct Hex. apply Exists_exists. eauto.
    + rewrite lookup_ge_None_2 by (rewrite length_one_hot; lia).
      split; [done|]. intros (obj & _ & _ & Hidx).
      apply (Index_init_index_bounds vocab base obj) in Hidx; [|done].
      fold self in Hidx. lia.
  - f_equal. unfold one_hot. apply list_fmap_ext. intros _ i _.
    apply decide_ext. rewrite !Exists_exists.
    setoid_rewrite list_elem_of_filter. split.
    + intros (obj & [_ Hin] & Hidx). eauto.
    + intros (obj & Hin & Hidx). exists obj. eauto.
  - f_equal. apply one_hot_same_objects. intros obj.
    apply elem_of_first_occurrences.
  - f_equal. apply one_hot_same_objects. intros obj.
    apply elem_of_remove_dups.
Qed.

(** C8 ([binary_vector_to_objects]): for every index and every vector the
    call raises nothing and returns, for the positions taken in increasing
    order that hold exactly 1 and are keys of [index_to_object], their
    objects.  A position holding another value, zero or not, is skipped,
    and so is a position without an object: with the vocabulary
    ["a"; "b"; "c"] and [start = 0], the vector [1; 2; 1; 1] gives
    ["a"; "c"]. *)
Theorem binary_vector_decodes_set_positions :
  (∀ (self : Index Obj) (vec : list Z),
     binary_vector_to_objects self vec
     = Ok (omap (λ i : nat, index_to_object self !! Z.of_nat i)
             (filter (λ i : nat, vec !! i = Some 1) (seq 0 (length vec)))))
  ∧ binary_vector_to_objects (Index_init ["a"; "b"; "c"]%string 0) [1; 2; 1; 1]
    = Ok ["a"; "c"]%string.
Proof.
  split; [|by vm_compute].
  intros self vec. apply binary_vector_to_objects_positions.
Qed.

(** C9, amended (empty outer sequence of [objects_to_binary_matrix]): when
    [vocab_size + start] is not negative and at most [2^60 - 1], the
    largest width of an array of 64-bit integers, the call raises nothing
    and returns a matrix with no row and [vocab_size + start] columns. *)
Theorem binary_matrix_of_no_sequence vocab base :
  let self := Index_init vocab base in
  0 ≤ vocab_size self + start self ≤ max_array_elems →
  objects_to_binary_matrix self []
  = Ok (NdArray2 (0%nat, Z.to_nat (vocab_size self + start self)) []).
Proof.
  intros self Hw. unfold objects_to_binary_matrix, np_zeros2. simpl.
  rewrite np_check_shape_2 by lia. rewrite array_bytes_2.
  rewrite decide_True; [done|].
  unfold max_array_elems, int64_max in *. repeat case_decide; lia.
Qed.

(** C10 (writes in bounds): the statements [vector[idx] = 1] that the loop
    of [objects_to_binary_vector] executes are those for the indexes of
    the objects of the input that have one, in order.  When [start] is not
    negative each of these indexes satisfies
    [0 <= idx < vocab_size + start], the length of the vector, so each
    write goes to position [idx] of the vector without raising; the call
    fails only when the vector cannot be created, and never with
    [IndexError]. *)
Theorem binary_vector_writes_in_bounds vocab base object_seq :
  0 ≤ base →
  let self := Index_init vocab base in
  (∀ vector,
     binary_vector_loop self object_seq vector
     = write_ones vector (write_indexes self object_seq))
  ∧ Forall (λ idx, 0 ≤ idx < vocab_size self + start self)
           (write_indexes self object_seq)
  ∧ Forall (λ idx, ∀ vector,
              Z.of_nat (length vector) = vocab_size self + start self →
              np_setitem vector idx 1 = Ok (<[Z.to_nat idx := 1]> vector))
           (write_indexes self object_seq)
  ∧ objects_to_binary_vector self object_seq
    = (np_zeros (vocab_size self + start self)
       ≫= λ _, Ok (one_hot self object_seq))
  ∧ objects_to_binary_vector self object_seq ≠ Raise IndexError_out_of_bounds.
Proof.
  intros Hbase self.
  pose proof (Index_init_writes_in_bounds vocab base object_seq Hbase) as Hin.
  fold self in Hin.
  split; [apply binary_vector_loop_writes|].
  split; [done|]. split; [|split].
  - eapply Forall_impl; [exact Hin|]. intros idx Hidx vector Hlen.
    simpl in Hidx. unfold np_setitem. rewrite decide_True by lia. done.
  - by apply objects_to_binary_vector_one_hot.
  - unfold self. rewrite objects_to_binary_vector_one_hot by done.
    rewrite np_zeros_cases. by repeat case_decide.
Qed.

End Claims.

(** * Further properties of the class *)

Section ListFacts.
Context {A : Type}.

Lemma filter_ext_in (P Q : A → Prop) `{∀ x, Decision (P x)}
    `{∀ x, Decision (Q x)} (l : list A) :
  (∀ x, x ∈ l → (P x ↔ Q x)) → filter P l = filter Q l.
Proof.
  induction l as [|a l IH]; intros Hext; [done|].
  rewrite !filter_cons.
  rewrite IH by (intros x Hx; apply Hext; by right).
  destruct (decide (P a)) as [HP|HP].
  - rewrite decide_True; [done|]. apply Hext; [by left|done].
  - rewrite decide_False; [done|]. intros HQ. apply HP, Hext; [by left|done].
Qed.

Lemma filter_none (P : A → Prop) `{∀ x, Decision (P x)} (l : list A) :
  (∀ x, x ∈ l → ¬ P x) → filter P l = [].
Proof.
  induction l as [|a l IH]; intros Hno; [done|].
  rewrite filter_cons, decide_False by (apply Hno; by left).
  apply IH. intros x Hx. apply Hno. by right.
Qed.

Lemma filter_all (P : A → Prop) `{∀ x, Decision (P x)} (l : list A) :
  (∀ x, x ∈ l → P x) → filter P l = l.
Proof.
  induction l as [|a l IH]; intros Hall; [done|].
  rewrite filter_cons, decide_True by (apply Hall; by left).
  f_equal. apply IH. intros x Hx. apply Hall. by right.
Qed.

End ListFacts.

Section Further.
Context {Obj : Type} `{Countable Obj}.
Implicit Types (self : Index Obj) (vocab object_seq : list Obj) (obj : Obj).
Implicit Types (base : Z) (vec : list Z).

Lemma first_occurrences_NoDup_id (l : list Obj) :
  NoDup l → first_occurrences l = l.
Proof.
  induction 1 as [|a l Hnotin _ IH]; simpl; [done|].
  rewrite IH. f_equal. apply filter_all. intros x Hx ->. done.
Qed.

Lemma indexes_to_objects_omap self (index_vector : list Z) :
  indexes_to_objects self index_vector
  = Ok (omap (λ idx, index_to_object self !! idx) index_vector).
Proof.
  induction index_vector as [|idx rest IH]; simpl; [done|].
  rewrite IH. unfold dict_getitem.
  destruct (index_to_object self !! idx) as [obj|] eqn:Hobj.
  - by rewrite decide_True by eauto.
  - rewrite decide_False; [done|]. by intros [? ?].
Qed.

Lemma index_matrix_to_objects_map self (index_matrix : list (list Z)) :
  index_matrix_to_objects self index_matrix
  = Ok (map (omap (λ idx, index_to_object self !! idx)) index_matrix).
Proof.
  induction index_matrix as [|row rest IH]; simpl; [done|].
  by rewrite indexes_to_objects_omap, IH.
Qed.

Lemma binary_matrix_to_objects_map self (binary_matrix : list (list Z)) :
  binary_matrix_to_objects self binary_matrix
  = Ok (map (set_objects_in_index_order self) binary_matrix).
Proof.
  induction binary_matrix as [|row rest IH]; simpl; [done|].
  by rewrite binary_vector_to_objects_positions, IH.
Qed.

(** Looking the indexes of a sequence up again keeps the objects that
    have an index and drops the sentinels of the others. *)
Lemma omap_index_list self object_seq :
  index_invariant self →
  omap (λ idx, index_to_object self !! idx) (index_list self object_seq)
  = filter (λ obj, is_Some (object_to_index self !! obj)) object_seq.
Proof.
  intros Hinv. induction object_seq as [|obj rest IH]; [done|].
  rewrite filter_cons.
  change (index_list self (obj :: rest))
    with (default (not_in_index self) (object_to_index self !! obj)
          :: index_list self rest).
  cbn -[index_list]. rewrite IH.
  destruct (object_to_index self !! obj) as [i|] eqn:Hi; simpl.
  - apply (inv_inverse _ Hinv) in Hi. by rewrite Hi.
  - by rewrite (inv_sentinel_free _ Hinv).
Qed.

Lemma omap_sentinels self (n : nat) :
  index_invariant self →
  omap (λ idx, index_to_object self !! idx) (replicate n (not_in_index self))
  = [].
Proof.
  intros Hinv. induction n as [|n IH]; simpl; [done|].
  by rewrite (inv_sentinel_free _ Hinv).
Qed.

(** ** Decoding indexes *)

Lemma index_to_object_position vocab base (idx : Z) :
  index_to_object (Index_init vocab base) !! idx
  = if decide (base ≤ idx)
    then first_occurrences vocab !! Z.to_nat (idx - base)
    else None.
Proof.
  destruct (Index_init_fields vocab base) as (_ & _ & _ & _ & Hi & _).
  apply option_eq. intros obj. rewrite Hi. case_decide as Hle; split.
  - intros (k & -> & Hk). by replace (Z.to_nat (base + Z.of_nat k - base))
      with k by lia.
  - intros Hk. exists (Z.to_nat (idx - base)). split; [lia|done].
  - intros (k & -> & _). lia.
  - done.
Qed.

(** X1: [indexes_to_objects] never raises: an index [start + k] below
    [start + vocab_size] is replaced by the [k]-th distinct object of the
    vocabulary, and any other integer is skipped, so the result is never
    longer than the input. *)
Theorem indexes_to_objects_by_position vocab base (index_vector : list Z) :
  let self := Index_init vocab base in
  let decoded :=
    omap (λ idx, if decide (base ≤ idx)
                 then first_occurrences vocab !! Z.to_nat (idx - base)
                 else None) index_vector in
  indexes_to_objects self index_vector = Ok decoded
  ∧ (length decoded ≤ length index_vector)%nat.
Proof.
  intros self decoded. split.
  - unfold self. rewrite indexes_to_objects_omap. f_equal. unfold decoded.
    induction index_vector as [|idx rest IH]; [done|].
    cbn. by rewrite index_to_object_position, IH.
  - unfold decoded. clear. induction index_vector as [|idx rest IH]; [done|].
    cbn. destruct (decide (base ≤ idx)); simpl; [|lia].
    destruct (first_occurrences vocab !! Z.to_nat (idx - base)); simpl; lia.
Qed.

(** X2: when the sentinel and the largest index fit a signed 64-bit
    integer, the index vector of any sequence is returned, and decoding
    it gives the sequence without its out-of-vocabulary objects: the
    sentinels are dropped, the other objects come back in order,
    repetitions included. *)
Theorem decode_encode_drops_unknown vocab base object_seq :
  let self := Index_init vocab base in
  values_fit self →
  ∃ index_vector,
    objects_to_indexes self object_seq = Ok index_vector
    ∧ indexes_to_objects self index_vector
      = Ok (filter (λ obj, obj ∈ vocab) object_seq).
Proof.
  intros self Hfit. exists (index_list self object_seq).
  split; [by apply np_array_int_fits, index_list_fits|].
  rewrite indexes_to_objects_omap. f_equal.
  rewrite omap_index_list by apply Index_init_invariant.
  apply list_filter_iff. intros obj. apply Index_init_known.
Qed.

(** X3: when the indexes of the vocabulary fit a signed 64-bit integer,
    encoding what [indexes_to_objects] decoded returns the index vector
    without the integers that are no index: those outside
    [start, start + vocab_size - 1]. *)
Theorem encode_decode_keeps_indexes vocab base (index_vector : list Z) :
  let self := Index_init vocab base in
  indexes_fit self →
  ∃ objs,
    indexes_to_objects self index_vector = Ok objs
    ∧ objects_to_indexes self objs
      = Ok (filter (λ idx, start self ≤ idx ≤ start self + vocab_size self - 1)
                   index_vector).
Proof.
  intros self Hfit. pose proof (Index_init_invariant vocab base) as Hinv.
  fold self in Hinv.
  exists (omap (λ idx, index_to_object self !! idx) index_vector).
  split; [apply indexes_to_objects_omap|].
  assert (Hlist :
    index_list self (omap (λ idx, index_to_object self !! idx) index_vector)
    = filter (λ idx, start self ≤ idx ≤ start self + vocab_size self - 1)
             index_vector).
  { induction index_vector as [|idx rest IH]; [done|].
    rewrite filter_cons. cbn -[index_list].
    destruct (index_to_object self !! idx) as [obj|] eqn:Hobj.
    - rewrite decide_True by (apply (inv_range _ Hinv); eauto).
      apply (inv_inverse _ Hinv) in Hobj.
      change (index_list self (obj :: ?l))
        with (default (not_in_index self) (object_to_index self !! obj)
              :: index_list self l).
      rewrite Hobj. simpl. by rewrite IH.
    - rewrite decide_False; [done|].
      intros [? ?]%(inv_range _ Hinv). congruence. }
  unfold objects_to_indexes. rewrite Hlist. apply np_array_int_fits.
  apply Forall_forall. intros idx [Hrange _]%list_elem_of_filter.
  destruct Hfit as [Hlo Hhi]. unfold fits_int64. lia.
Qed.

(** X4: the batch round trip.  For a batch that is not empty, when the
    sentinel and the largest index fit a signed 64-bit integer and numpy
    accepts the shape of the matrix, [objects_to_index_matrix] returns a
    matrix and decoding its rows gives each sequence back without its
    out-of-vocabulary objects; the padding leaves no trace. *)
Theorem index_matrix_round_trip vocab base (object_seq_seq : list (list Obj)) :
  object_seq_seq ≠ [] →
  let self := Index_init vocab base in
  values_fit self →
  array_bytes [Z.of_nat (length object_seq_seq);
               Z.of_nat (max_length_of object_seq_seq)] ≤ int64_max →
  ∃ matrix,
    objects_to_index_matrix self object_seq_seq = Ok matrix
    ∧ index_matrix_to_objects self (rows matrix)
      = Ok (map (filter (λ obj, obj ∈ vocab)) object_seq_seq).
Proof.
  intros Hne self Hfit Hshape. destruct object_seq_seq as [|s ss]; [done|].
  pose proof (Index_init_invariant vocab base) as Hinv. fold self in Hinv.
  eexists. split.
  - apply objects_to_index_matrix_cons; [done| |].
    + destruct Hfit as [Hlo Hhi].
      pose proof (Index_init_vocab_size_nonneg vocab base) as Hvs.
      fold self in Hvs. rewrite (inv_sentinel _ Hinv) in *.
      unfold fits_int64. lia.
    + apply Forall_forall. intros s' _. by apply index_list_fits.
  - cbn [rows]. rewrite index_matrix_to_objects_map. f_equal.
    rewrite map_map. apply map_ext. intros s'.
    unfold padded_row. rewrite omap_app, omap_sentinels, app_nil_r by done.
    rewrite omap_index_list by done.
    apply list_filter_iff. intros obj. apply Index_init_known.
Qed.

(** X5: when the sentinel and the largest index fit a signed 64-bit
    integer, a position of the index vector holds the sentinel
    [start - 1] exactly where the input holds an out-of-vocabulary object:
    no vocabulary object is encoded as the sentinel. *)
Theorem sentinel_marks_unknown_objects vocab base object_seq :
  let self := Index_init vocab base in
  values_fit self →
  ∃ index_vector,
    objects_to_indexes self object_seq = Ok index_vector
    ∧ map (λ idx, bool_decide (idx = not_in_index self)) index_vector
      = map (λ obj, bool_decide (obj ∉ vocab)) object_seq.
Proof.
  intros self Hfit. exists (index_list self object_seq).
  split; [by apply np_array_int_fits, index_list_fits|].
  unfold index_list. rewrite map_map.
  apply map_ext. intros obj. apply bool_decide_ext.
  pose proof (Index_init_invariant vocab base) as Hinv. fold self in Hinv.
  rewrite <- (Index_init_unknown vocab base). fold self.
  destruct (object_to_index self !! obj) as [i|] eqn:Hi; simpl; [|done].
  split; [|done]. intros ->.
  apply (inv_inverse _ Hinv) in Hi.
  by rewrite (inv_sentinel_free _ Hinv) in Hi.
Qed.

(** X6: when the indexes of the vocabulary fit a signed 64-bit integer,
    the distinct objects of the vocabulary, in order of first occurrence,
    are encoded as the consecutive integers from [start], and those
    integers are decoded as these objects. *)
Theorem vocabulary_is_numbered_consecutively vocab base :
  let self := Index_init vocab base in
  indexes_fit self →
  objects_to_indexes self (first_occurrences vocab)
  = Ok (seqZ base (vocab_size self))
  ∧ indexes_to_objects self (seqZ base (vocab_size self))
    = Ok (first_occurrences vocab).
Proof.
  intros self Hfit.
  destruct (Index_init_fields vocab base) as (_ & _ & Hvs & Ho & _).
  fold self in Hvs, Ho.
  assert (Hknown : Forall (λ obj, is_Some (object_to_index self !! obj))
                          (first_occurrences vocab)).
  { apply Forall_forall. intros obj Hobj. apply Index_init_known.
    by apply elem_of_first_occurrences. }
  assert (Henc : index_list self (first_occurrences vocab)
                 = seqZ base (vocab_size self)).
  { apply list_eq. intros k. rewrite lookup_index_list.
    destruct (first_occurrences vocab !! k) as [obj|] eqn:Hk; simpl.
    - assert (object_to_index self !! obj = Some (base + Z.of_nat k)) as ->
        by (apply Ho; eauto).
      simpl. symmetry. apply lookup_seqZ_lt.
      apply lookup_lt_Some in Hk. lia.
    - symmetry. apply lookup_seqZ_ge. apply lookup_ge_None in Hk. lia. }
  split.
  - rewrite <- Henc. apply np_array_int_fits.
    by apply index_list_known_fits.
  - rewrite <- Henc. apply decode_encode; [apply Index_init_invariant|done].
Qed.

(** X7: only the first occurrences matter: the vocabulary without its
    repetitions gives the same index. *)
Theorem Index_init_ignores_repetitions vocab base :
  Index_init (first_occurrences vocab) base = Index_init vocab base.
Proof.
  destruct (Index_init_fields (first_occurrences vocab) base)
    as (Hst & Hnot & Hvs & Ho & Hi & _).
  destruct (Index_init_fields vocab base)
    as (Hst' & Hnot' & Hvs' & Ho' & Hi' & _).
  rewrite (first_occurrences_NoDup_id (first_occurrences vocab))
    in Hvs, Ho, Hi by apply NoDup_first_occurrences.
  destruct (Index_init (first_occurrences vocab) base) as [s o i v n].
  destruct (Index_init vocab base) as [s' o' i' v' n'].
  simpl in *. f_equal; try congruence.
  - apply map_eq. intros obj. apply option_eq. intros idx.
    by rewrite Ho, Ho'.
  - apply map_eq. intros idx. apply option_eq. intros obj.
    by rewrite Hi, Hi'.
Qed.

(** ** Decoding one-hot vectors *)

Lemma lookup_snoc_one vec (v : Z) (n : nat) :
  (vec ++ [v]) !! n = Some 1
  ↔ vec !! n = Some 1 ∨ (n = length vec ∧ v = 1).
Proof.
  rewrite lookup_snoc_Some. split.
  - intros [[_ ?]|[? ?]]; auto.
  - intros [Hn|[? ?]]; [left|right]; try done.
    split; [by eapply lookup_lt_Some | done].
Qed.

(** One more position at the end of the vector adds its object, if it is
    a set position with an object, at the end of the decoding. *)
Lemma set_objects_snoc self vec (v : Z) :
  set_objects_in_index_order self (vec ++ [v])
  = set_objects_in_index_order self vec
    ++ (if decide (v = 1)
        then option_list (index_to_object self !! Z.of_nat (length vec))
        else []).
Proof.
  unfold set_objects_in_index_order.
  rewrite length_app, seq_app, filter_app, omap_app. simpl. f_equal.
  - f_equal. apply filter_ext_in. intros i Hi%elem_of_seq.
    by rewrite lookup_app_l by lia.
  - rewrite filter_cons, filter_nil, list_lookup_middle by done.
    destruct (decide (v = 1)) as [->|Hne].
    + rewrite decide_True by done. simpl.
      by destruct (index_to_object self !! Z.of_nat (length vec)).
    + by rewrite decide_False by congruence.
Qed.

Lemma set_in_position vocab base vec (k : nat) obj :
  first_occurrences vocab !! k = Some obj →
  set_in (Index_init vocab base) vec obj
  ↔ 0 ≤ base + Z.of_nat k ∧ vec !! Z.to_nat (base + Z.of_nat k) = Some 1.
Proof.
  intros Hk.
  destruct (Index_init_fields vocab base) as (_ & _ & _ & Ho & _).
  unfold set_in.
  assert (object_to_index (Index_init vocab base) !! obj
          = Some (base + Z.of_nat k)) as -> by (apply Ho; eauto).
  done.
Qed.

Lemma set_in_snoc vocab base vec (v : Z) (k : nat) obj :
  first_occurrences vocab !! k = Some obj →
  set_in (Index_init vocab base) (vec ++ [v]) obj
  ↔ set_in (Index_init vocab base) vec obj
    ∨ (base + Z.of_nat k = Z.of_nat (length vec) ∧ v = 1).
Proof.
  intros Hk. rewrite !(set_in_position vocab base _ k obj Hk).
  rewrite lookup_snoc_one. split.
  - intros [Hle [Hone|[Hn ->]]]; [by left|right]. split; [lia|done].
  - intros [[Hle Hone]|[Hn ->]]; [by auto|].
    split; [lia|]. right. split; [lia|done].
Qed.

(** The decoding of any vector, read on the vocabulary: the distinct
    objects in order of first occurrence, those kept whose index is a
    position of the vector holding 1. *)
Lemma set_objects_filter vocab base vec :
  set_objects_in_index_order (Index_init vocab base) vec
  = filter (set_in (Index_init vocab base) vec) (first_occurrences vocab).
Proof.
  destruct (Index_init_fields vocab base) as (_ & _ & _ & _ & Hi & _).
  induction vec as [|v vec IH] using rev_ind.
  - symmetry. apply filter_none. intros obj [k Hk]%list_elem_of_lookup_1.
    rewrite (set_in_position vocab base [] k obj Hk). by intros [_ ?].
  - rewrite set_objects_snoc, IH.
    destruct (decide (v = 1)) as [->|Hne];
      [destruct (index_to_object (Index_init vocab base) !! Z.of_nat (length vec))
         as [x0|] eqn:Hx0|].
    + apply Hi in Hx0 as (k0 & Hk0 & Hx0). simpl.
      rewrite <- (take_drop_middle _ _ _ Hx0).
      rewrite !filter_app, !filter_cons.
      assert (Htake : filter (set_in (Index_init vocab base) (vec ++ [1]))
                        (take k0 (first_occurrences vocab))
                      = filter (set_in (Index_init vocab base) vec)
                          (take k0 (first_occurrences vocab))).
      { apply filter_ext_in. intros obj (k & Hk & Hlt)%elem_of_take.
        rewrite (set_in_snoc vocab base vec 1 k obj Hk).
        split; [intros [?|[? _]]; [done|lia] | by left]. }
      assert (Hdrop : ∀ vec', (length vec' ≤ S (length vec))%nat →
                filter (set_in (Index_init vocab base) vec')
                  (drop (S k0) (first_occurrences vocab)) = []).
      { intros vec' Hlen. apply filter_none.
        intros obj [j Hj]%list_elem_of_lookup_1. rewrite lookup_drop in Hj.
        rewrite (set_in_position vocab base vec' _ obj Hj).
        intros [_ Hone]. apply lookup_lt_Some in Hone. lia. }
      rewrite Htake, !Hdrop by (rewrite ?length_app; simpl; lia).
      rewrite (decide_True (P := set_in _ (vec ++ [1]) x0))
        by (apply (set_in_snoc vocab base vec 1 k0 x0 Hx0); right; lia).
      rewrite (decide_False (P := set_in _ vec x0));
        [by rewrite !app_nil_r|].
      rewrite (set_in_position vocab base vec k0 x0 Hx0).
      intros [_ Hone]. apply lookup_lt_Some in Hone. lia.
    + simpl. rewrite app_nil_r. symmetry. apply filter_ext_in.
      intros obj [k Hk]%list_elem_of_lookup_1.
      rewrite (set_in_snoc vocab base vec 1 k obj Hk).
      split; [|by left]. intros [?|[Hk' _]]; [done|].
      assert (index_to_object (Index_init vocab base) !! Z.of_nat (length vec) = Some obj)
        by (apply Hi; exists k; split; [lia|done]).
      congruence.
    + rewrite app_nil_r. symmetry. apply filter_ext_in.
      intros obj [k Hk]%list_elem_of_lookup_1.
      rewrite (set_in_snoc vocab base vec v k obj Hk).
      split; [intros [?|[_ ?]]; done | by left].
Qed.

(** X8: [binary_vector_to_objects] never raises and returns vocabulary
    objects in the order of the vocabulary, none of them twice: what it
    returns is a sublist of the distinct objects in order of first
    occurrence, the objects kept being those whose index is a position of
    the vector that holds 1.  This holds for every vector, whatever its
    length and entries. *)
Theorem binary_decoding_is_sublist_of_vocabulary vocab base vec :
  let self := Index_init vocab base in
  let objs := filter (set_in self vec) (first_occurrences vocab) in
  binary_vector_to_objects self vec = Ok objs
  ∧ objs `sublist_of` first_occurrences vocab
  ∧ NoDup objs
  ∧ Z.of_nat (length objs) ≤ vocab_size self.
Proof.
  intros self objs.
  destruct (Index_init_fields vocab base) as (_ & _ & Hvs & _).
  fold self in Hvs.
  assert (Hsub : objs `sublist_of` first_occurrences vocab)
    by apply sublist_filter.
  split; [|split; [done|split]].
  - unfold self, objs.
    by rewrite binary_vector_to_objects_positions, set_objects_filter.
  - exact (sublist_NoDup _ _ (NoDup_first_occurrences _) Hsub).
  - apply sublist_length in Hsub. lia.
Qed.

(** X9: positions from [vocab_size + start] on are never looked at with
    effect: cutting the vector there does not change the decoding. *)
Theorem binary_decoding_ignores_tail vocab base vec :
  let self := Index_init vocab base in
  binary_vector_to_objects self vec
  = binary_vector_to_objects self
      (take (Z.to_nat (vocab_size self + start self)) vec).
Proof.
  intros self.
  destruct (Index_init_fields vocab base) as (Hst & _ & Hvs & _).
  fold self in Hst, Hvs. unfold self.
  rewrite !binary_vector_to_objects_positions, !set_objects_filter.
  f_equal. apply filter_ext_in. intros obj [k Hk]%list_elem_of_lookup_1.
  rewrite !(set_in_position vocab base _ k obj Hk).
  apply lookup_lt_Some in Hk. fold self.
  split; intros [Hle Hone]; (split; [done|]).
  - rewrite lookup_take_lt by lia. done.
  - rewrite lookup_take_lt in Hone by lia. done.
Qed.

(** ** One-hot batches and round trips *)

Lemma vocab_width_nonneg vocab base :
  0 ≤ base →
  0 ≤ vocab_size (Index_init vocab base) + start (Index_init vocab base).
Proof.
  intros Hbase.
  destruct (Index_init_fields vocab base) as (Hst & _ & Hvs & _). lia.
Qed.

(** A matrix whose shape numpy accepts has rows numpy accepts. *)
Lemma array_bytes_width (r w : Z) :
  0 ≤ r → 0 ≤ w → array_bytes [r; w] ≤ int64_max → w ≤ max_array_elems.
Proof.
  intros Hr Hw. rewrite array_bytes_2.
  unfold int64_max, max_array_elems. repeat case_decide; nia.
Qed.

Lemma np_zeros2_ok (r : nat) (w : Z) :
  0 ≤ w → array_bytes [Z.of_nat r; w] ≤ int64_max →
  np_zeros2 r w
  = Ok (NdArray2 (r, Z.to_nat w) (replicate r (replicate (Z.to_nat w) 0))).
Proof.
  intros Hw Hshape. unfold np_zeros2.
  rewrite np_check_shape_2 by lia. by rewrite decide_True.
Qed.

Lemma binary_matrix_loop_fills vocab base (r : nat)
    (rest : list (list Obj)) :
  0 ≤ base →
  let self := Index_init vocab base in
  let w := Z.to_nat (vocab_size self + start self) in
  vocab_size self + start self ≤ max_array_elems →
  ∀ pre : list (list Z),
    binary_matrix_loop self (length pre) rest
      (NdArray2 (r, w) (pre ++ replicate (length rest) (replicate w 0)))
    = Ok (NdArray2 (r, w) (pre ++ map (one_hot self) rest)).
Proof.
  intros Hbase self w Hmax. subst w self.
  induction rest as [|s rest IH]; intros pre; simpl; [done|].
  rewrite objects_to_binary_vector_ok by done.
  rewrite bind_Ok. unfold np_setrow. simpl.
  rewrite list_lookup_middle by done.
  rewrite decide_True by apply length_one_hot. rewrite bind_Ok.
  rewrite insert_app_r_alt, Nat.sub_diag by done. simpl.
  specialize (IH (pre ++ [one_hot (Index_init vocab base) s])).
  rewrite length_app, Nat.add_1_r, <- app_assoc in IH. simpl in IH.
  rewrite IH. by rewrite <- app_assoc.
Qed.

Lemma objects_to_binary_matrix_ok vocab base
    (object_seq_seq : list (list Obj)) :
  0 ≤ base →
  let self := Index_init vocab base in
  array_bytes [Z.of_nat (length object_seq_seq);
               vocab_size self + start self] ≤ int64_max →
  objects_to_binary_matrix self object_seq_seq
  = Ok (NdArray2 (length object_seq_seq,
                  Z.to_nat (vocab_size self + start self))
          (map (one_hot self) object_seq_seq)).
Proof.
  intros Hbase self Hshape.
  pose proof (vocab_width_nonneg vocab base Hbase) as Hw. fold self in Hw.
  unfold objects_to_binary_matrix.
  rewrite np_zeros2_ok by done. rewrite bind_Ok.
  assert (Hmax : vocab_size self + start self ≤ max_array_elems)
    by (eapply array_bytes_width; [|done|exact Hshape]; lia).
  apply (binary_matrix_loop_fills vocab base (length object_seq_seq)
           object_seq_seq Hbase Hmax []).
Qed.

(** X10: [objects_to_binary_matrix] when [start] is not negative and numpy
    accepts the shape (8 bytes for each element, within the signed 64-bit
    range): the call raises nothing for any batch and returns a matrix
    with one row per sequence and [vocab_size + start] columns whose rows
    are the one-hot vectors of the sequences. *)
Theorem binary_matrix_rows_are_one_hot vocab base
    (object_seq_seq : list (list Obj)) :
  0 ≤ base →
  let self := Index_init vocab base in
  array_bytes [Z.of_nat (length object_seq_seq);
               vocab_size self + start self] ≤ int64_max →
  objects_to_binary_matrix self object_seq_seq
  = Ok (NdArray2 (length object_seq_seq,
                  Z.to_nat (vocab_size self + start self))
          (map (one_hot self) object_seq_seq))
  ∧ Forall (λ s, objects_to_binary_vector self s = Ok (one_hot self s))
           object_seq_seq.
Proof.
  intros Hbase self Hshape.
  pose proof (vocab_width_nonneg vocab base Hbase) as Hw. fold self in Hw.
  split; [by apply objects_to_binary_matrix_ok|].
  apply Forall_forall. intros s _.
  apply objects_to_binary_vector_ok; [done|]. fold self.
  eapply array_bytes_width; [|done|exact Hshape]. lia.
Qed.

(** The vector of a sequence holds 1 at the index of a vocabulary object
    exactly when the object occurs in the sequence. *)
Lemma set_in_one_hot vocab base object_seq (k : nat) obj :
  0 ≤ base →
  first_occurrences vocab !! k = Some obj →
  set_in (Index_init vocab base) (one_hot (Index_init vocab base) object_seq)
         obj
  ↔ obj ∈ object_seq.
Proof.
  intros Hbase Hk. rewrite (set_in_position vocab base _ k obj Hk).
  set (self := Index_init vocab base).
  pose proof (Index_init_invariant vocab base) as Hinv. fold self in Hinv.
  destruct (Index_init_fields vocab base) as (Hst & _ & Hvs & Ho & _).
  fold self in Hst, Hvs, Ho.
  assert (Hobj : object_to_index self !! obj = Some (base + Z.of_nat k))
    by (apply Ho; eauto).
  pose proof (lookup_lt_Some _ _ _ Hk) as Hlt.
  rewrite lookup_one_hot by lia.
  rewrite Z2Nat.id by lia. case_decide as Hex.
  - apply Exists_exists in Hex as (obj' & Hin & Hobj').
    rewrite (inv_no_duplicates _ Hinv obj obj' _ Hobj Hobj').
    split; [done|]. intros _. split; [lia|done].
  - split; [by intros [_ ?]|]. intros Hin. destruct Hex.
    apply Exists_exists. eauto.
Qed.

(** X11: the one-hot round trip when [start] is not negative and
    [vocab_size + start] is at most [2^60 - 1], the largest length of an
    array of 64-bit integers: the vector of a sequence is returned, and
    decoding it gives the distinct vocabulary objects that occur in the
    sequence, in the order of the vocabulary; the order and the
    repetitions of the sequence are lost, and so are its
    out-of-vocabulary objects. *)
Theorem binary_round_trip vocab base object_seq :
  0 ≤ base →
  let self := Index_init vocab base in
  vocab_size self + start self ≤ max_array_elems →
  ∃ vector,
    objects_to_binary_vector self object_seq = Ok vector
    ∧ binary_vector_to_objects self vector
      = Ok (filter (λ obj, obj ∈ object_seq) (first_occurrences vocab)).
Proof.
  intros Hbase self Hmax. exists (one_hot self object_seq).
  split; [by apply objects_to_binary_vector_ok|].
  unfold self. rewrite binary_vector_to_objects_positions, set_objects_filter.
  f_equal. apply filter_ext_in. intros obj [k Hk]%list_elem_of_lookup_1.
  by apply (set_in_one_hot vocab base object_seq k).
Qed.

(** X12: the one-hot round trip of a batch, row by row, when [start] is
    not negative and numpy accepts the shape of the matrix. *)
Theorem binary_matrix_round_trip vocab base
    (object_seq_seq : list (list Obj)) :
  0 ≤ base →
  let self := Index_init vocab base in
  array_bytes [Z.of_nat (length object_seq_seq);
               vocab_size self + start self] ≤ int64_max →
  ∃ matrix,
    objects_to_binary_matrix self object_seq_seq = Ok matrix
    ∧ binary_matrix_to_objects self (rows matrix)
      = Ok (map (λ s, filter (λ obj, obj ∈ s) (first_occurrences vocab))
                object_seq_seq).
Proof.
  intros Hbase self Hshape. eexists.
  split; [by apply objects_to_binary_matrix_ok|].
  cbn [rows]. rewrite binary_matrix_to_objects_map. f_equal.
  rewrite map_map. apply map_ext. intros s. unfold self.
  rewrite set_objects_filter.
  apply filter_ext_in. intros obj [k Hk]%list_elem_of_lookup_1.
  by apply (set_in_one_hot vocab base s k).
Qed.

(** X13: the other round trip when [start] is not negative: a vector of
    length [vocab_size + start] with entries 0 and 1 only, and 0 at the
    [start] reserved positions, is the one-hot vector of its own
    decoding.  (A vector of more than [2^60 - 1] entries is no array of
    64-bit integers; for such a list the model of [np.zeros] refuses the
    size.) *)
Theorem binary_encode_decode vocab base vec :
  0 ≤ base →
  let self := Index_init vocab base in
  Z.of_nat (length vec) = vocab_size self + start self →
  Forall (λ b, b = 0 ∨ b = 1) vec →
  Forall (λ b, b = 0) (take (Z.to_nat base) vec) →
  ∃ objs,
    binary_vector_to_objects self vec = Ok objs
    ∧ objects_to_binary_vector self objs
      = if decide (Z.of_nat (length vec) ≤ max_array_elems) then Ok vec
        else Raise ValueError_array_too_big.
Proof.
  intros Hbase self Hlen Hbits Hreserved.
  pose proof (Index_init_invariant vocab base) as Hinv. fold self in Hinv.
  destruct (Index_init_fields vocab base) as (Hst & _ & _).
  fold self in Hst.
  exists (set_objects_in_index_order self vec).
  split; [apply binary_vector_to_objects_positions|].
  unfold self at 1. rewrite objects_to_binary_vector_one_hot by done.
  fold self. rewrite np_zeros_cases, <- Hlen.
  case_decide as Hmax.
  2: { rewrite (decide_False (P := _ ≤ _ < 0)) by lia.
       rewrite decide_False by lia. done. }
  rewrite decide_True by lia. rewrite bind_Ok.
f_equal. apply list_eq. intros i.
  destruct (decide (i < length vec)%nat) as [Hlt|Hge].
  - rewrite lookup_one_hot by lia.
    destruct (lookup_lt_is_Some_2 vec i Hlt) as [b Hb]. rewrite Hb. f_equal.
    pose proof (proj1 (Forall_lookup _ _) Hbits i b Hb) as Hb01. simpl in Hb01.
    case_decide as Hex.
    + apply Exists_exists in Hex as (obj & Hin & Hidx).
      apply elem_of_set_objects in Hin as (j & Hone & Hobj).
      apply (inv_inverse _ Hinv) in Hobj.
      assert (j = i) as -> by (rewrite Hobj in Hidx; injection Hidx; lia).
      congruence.
    + destruct Hb01 as [->| ->]; [done|]. destruct Hex.
      assert (Hmapped : is_Some (index_to_object self !! Z.of_nat i)).
      { apply (inv_range _ Hinv). split; [|lia].
        destruct (decide (start self ≤ Z.of_nat i)) as [|Hlow]; [done|].
        assert (take (Z.to_nat base) vec !! i = Some 1) as Hres
          by (rewrite lookup_take_lt by lia; done).
        pose proof (proj1 (Forall_lookup _ _) Hreserved i 1 Hres) as Hz.
        simpl in Hz. lia. }
      destruct Hmapped as [obj Hobj]. apply Exists_exists. exists obj.
      split; [|by apply (inv_inverse _ Hinv)].
      apply elem_of_set_objects. eauto.
  - rewrite (lookup_ge_None_2 vec) by lia.
    apply lookup_ge_None_2. rewrite length_one_hot. lia.
Qed.

(** X14: the vector of a concatenation is the position-wise maximum of
    the vectors of its parts, when [start] is not negative and
    [vocab_size + start] is at most [2^60 - 1]: encoding accumulates, it
    never clears a position. *)
Theorem binary_vector_of_concatenation vocab base (s1 s2 : list Obj) :
  0 ≤ base →
  let self := Index_init vocab base in
  vocab_size self + start self ≤ max_array_elems →
  ∃ v1 v2,
    objects_to_binary_vector self s1 = Ok v1
    ∧ objects_to_binary_vector self s2 = Ok v2
    ∧ objects_to_binary_vector self (s1 ++ s2) = Ok (zip_with Z.max v1 v2).
Proof.
  intros Hbase self Hmax. exists (one_hot self s1), (one_hot self s2).
  unfold self. rewrite !objects_to_binary_vector_ok by done.
  split; [done|]. split; [done|]. f_equal. fold self.
  apply list_eq. intros i. rewrite lookup_zip_with.
  destruct (decide (i < Z.to_nat (vocab_size self + start self))%nat)
    as [Hlt|Hge].
  - rewrite !lookup_one_hot by done. simpl. f_equal.
    repeat case_decide; try done; exfalso;
      repeat match goal with
             | He : Exists _ (_ ++ _) |- _ => apply Exists_app in He as [?|?]
             | Hn : ¬ Exists _ (_ ++ _) |- _ => rewrite Exists_app in Hn
             end; tauto.
  - rewrite !(lookup_ge_None_2 (one_hot _ _)) by (rewrite length_one_hot; lia).
    done.
Qed.

(** X15: the vector depends only on which objects occur in the sequence, not
    on their order or number, when [start] is not negative. *)
Theorem binary_vector_of_same_objects vocab base (s1 s2 : list Obj) :
  0 ≤ base →
  (∀ obj, obj ∈ s1 ↔ obj ∈ s2) →
  objects_to_binary_vector (Index_init vocab base) s1
  = objects_to_binary_vector (Index_init vocab base) s2.
Proof.
  intros Hbase Hsame. rewrite !objects_to_binary_vector_one_hot by done.
  by rewrite (one_hot_same_objects _ s1 s2).
Qed.

(** ** What the one-hot encoders can raise *)

Lemma binary_vector_loop_raises self object_seq :
  ∀ vector,
    (∃ vector', binary_vector_loop self object_seq vector = Ok vector'
                ∧ length vector' = length vector)
    ∨ binary_vector_loop self object_seq vector
      = Raise IndexError_out_of_bounds.
Proof.
  induction object_seq as [|obj rest IH]; intros vector; simpl; [eauto|].
  destruct (object_to_index self !! obj) as [idx|]; [|apply IH].
  unfold np_setitem.
  repeat case_decide; simpl; [| |by right].
  - destruct (IH (<[Z.to_nat idx := 1]> vector)) as [(v' & -> & Hlen)| ->];
      [left|by right].
    exists v'. by rewrite Hlen, length_insert.
  - destruct (IH (<[Z.to_nat (Z.of_nat (length vector) + idx) := 1]> vector))
      as [(v' & -> & Hlen)| ->]; [left|by right].
    exists v'. by rewrite Hlen, length_insert.
Qed.

Lemma objects_to_binary_vector_cases self object_seq :
  let w := vocab_size self + start self in
  if decide (0 ≤ w ≤ max_array_elems)
  then (∃ vector, objects_to_binary_vector self object_seq = Ok vector
                  ∧ Z.of_nat (length vector) = w)
       ∨ objects_to_binary_vector self object_seq
         = Raise IndexError_out_of_bounds
  else if decide (int64_min ≤ w < 0)
  then objects_to_binary_vector self object_seq
       = Raise ValueError_negative_dimensions
  else objects_to_binary_vector self object_seq
       = Raise ValueError_array_too_big.
Proof.
  intros w. unfold objects_to_binary_vector. fold w. rewrite np_zeros_cases.
  case_decide as Hw; [|by case_decide].
  rewrite bind_Ok.
  destruct (binary_vector_loop_raises self object_seq
              (replicate (Z.to_nat w) 0)) as [(v' & -> & Hlen)| ->];
    [left|by right].
  exists v'. split; [done|]. rewrite Hlen, length_replicate. lia.
Qed.

(** X16: for every index, whatever its [start], with
    [w = vocab_size + start]: when [0 <= w <= 2^60 - 1],
    [objects_to_binary_vector] returns a vector of length [w] or raises
    [IndexError], and nothing else; when [w] is negative (and a signed
    64-bit integer) it raises the [ValueError] of a negative size; in
    every other case it raises the [ValueError] of a size no array can
    have. *)
Theorem binary_vector_outcomes self object_seq :
  let w := vocab_size self + start self in
  if decide (0 ≤ w ≤ max_array_elems)
  then (∃ vector, objects_to_binary_vector self object_seq = Ok vector
                  ∧ Z.of_nat (length vector) = w)
       ∨ objects_to_binary_vector self object_seq
         = Raise IndexError_out_of_bounds
  else if decide (int64_min ≤ w < 0)
  then objects_to_binary_vector self object_seq
       = Raise ValueError_negative_dimensions
  else objects_to_binary_vector self object_seq
       = Raise ValueError_array_too_big.
Proof. apply objects_to_binary_vector_cases. Qed.

Lemma binary_matrix_loop_raises self (r : nat) (rest : list (list Obj)) :
  0 ≤ vocab_size self + start self ≤ max_array_elems →
  let w := Z.to_nat (vocab_size self + start self) in
  ∀ pre : list (list Z),
    (∃ rows',
       binary_matrix_loop self (length pre) rest
         (NdArray2 (r, w) (pre ++ replicate (length rest) (replicate w 0)))
       = Ok (NdArray2 (r, w) rows')
       ∧ length rows' = (length pre + length rest)%nat)
    ∨ binary_matrix_loop self (length pre) rest
        (NdArray2 (r, w) (pre ++ replicate (length rest) (replicate w 0)))
      = Raise IndexError_out_of_bounds.
Proof.
  intros Hw w. induction rest as [|s rest IH]; intros pre; simpl.
  - left. exists pre. rewrite app_nil_r. split; [done|lia].
  - pose proof (objects_to_binary_vector_cases self s) as Hcases.
    simpl in Hcases. rewrite decide_True in Hcases by done.
    destruct Hcases as [(vector & -> & Hlen)| ->]; [|by right].
    rewrite bind_Ok. unfold np_setrow. simpl.
    rewrite list_lookup_middle by done.
    rewrite decide_True by (unfold w; lia). rewrite bind_Ok.
    rewrite insert_app_r_alt, Nat.sub_diag by done. simpl.
    specialize (IH (pre ++ [vector])).
    rewrite length_app, Nat.add_1_r, <- app_assoc in IH. simpl in IH.
    destruct IH as [(rows' & -> & Hrows)| ->]; [left|by right].
    exists rows'. split; [done|lia].
Qed.

(** X17: the same for [objects_to_binary_matrix], for every index and
    every batch, with [w = vocab_size + start]: when [w] is not negative
    and numpy accepts the shape (rows, [w]), the call returns a matrix of
    that shape with one row per sequence or raises [IndexError], and
    nothing else: no row assignment fails on the shape of the row.  In
    every other case it raises a [ValueError] about the shape, whatever
    the batch holds. *)
Theorem binary_matrix_outcomes self (object_seq_seq : list (list Obj)) :
  let w := vocab_size self + start self in
  let r := length object_seq_seq in
  if decide (0 ≤ w ∧ array_bytes [Z.of_nat r; w] ≤ int64_max)
  then (∃ matrix,
          objects_to_binary_matrix self object_seq_seq = Ok matrix
          ∧ shape matrix = (r, Z.to_nat w)
          ∧ length (rows matrix) = r)
       ∨ objects_to_binary_matrix self object_seq_seq
         = Raise IndexError_out_of_bounds
  else objects_to_binary_matrix self object_seq_seq
       = Raise ValueError_negative_dimensions
       ∨ objects_to_binary_matrix self object_seq_seq
         = Raise ValueError_array_too_big.
Proof.
  intros w r. subst w r. unfold objects_to_binary_matrix.
  set (w := vocab_size self + start self).
  case_decide as Hshape.
  - destruct Hshape as [Hw Hshape]. rewrite np_zeros2_ok by done.
    rewrite bind_Ok.
    assert (Hmax : w ≤ max_array_elems)
      by (eapply array_bytes_width; [|done|exact Hshape]; lia).
    destruct (binary_matrix_loop_raises self (length object_seq_seq)
                object_seq_seq (conj Hw Hmax) [])
      as [(rows' & Hok & Hlen)| Hraise].
    + simpl in Hok, Hlen. fold w in Hok. rewrite Hok. left. eexists.
      split; [done|]. by split.
    + simpl in Hraise. fold w in Hraise. rewrite Hraise. by right.
  - unfold np_zeros2.
    destruct (decide (0 ≤ w)) as [Hw|Hw].
    + rewrite np_check_shape_2 by lia.
      rewrite decide_False by tauto. by right.
    + unfold np_check_shape, np_count_bytes.
      repeat case_decide; simpl; auto; lia.
Qed.

End Further.

(** * The theorems at concrete vocabularies of strings *)

Local Open Scope string_scope.

(** Closed goals about concrete integers and vocabularies. *)
Ltac by_computation :=
  vm_compute; first [reflexivity | discriminate | exact I].

(** C1 as stated fails for a [start] whose indexes leave the signed
    64-bit range: with the vocabulary ["a"; "b"] and [start = 2^63 - 1]
    the index of "b" is [2^63], and [np.array(..., dtype=int)] raises
    [OverflowError], so there is no index vector to decode. *)
Lemma index_round_trip_fails_beyond_int64 :
  ["b"] ⊆ ["a"; "b"]
  ∧ objects_to_indexes (Index_init ["a"; "b"] (2 ^ 63 - 1)%Z) ["b"]
    = Raise OverflowError
  ∧ ¬ ∃ index_vector,
        objects_to_indexes (Index_init ["a"; "b"] (2 ^ 63 - 1)%Z) ["b"]
        = Ok index_vector
        ∧ indexes_to_objects (Index_init ["a"; "b"] (2 ^ 63 - 1)%Z)
            index_vector = Ok ["b"].
Proof.
  split; [apply (bool_decide_unpack _); by_computation|].
  split; [by_computation|].
  intros (index_vector & Hv & _). vm_compute in Hv. discriminate.
Qed.

(** C1, amended, at the vocabulary ["a"; "b"; "c"] with [start = 5]. *)
Lemma index_round_trip_witness :
  ["c"; "a"; "a"] ⊆ ["a"; "b"; "c"]
  ∧ indexes_fit (Index_init ["a"; "b"; "c"] 5)
  ∧ ∃ index_vector,
      objects_to_indexes (Index_init ["a"; "b"; "c"] 5) ["c"; "a"; "a"]
      = Ok index_vector
      ∧ indexes_to_objects (Index_init ["a"; "b"; "c"] 5) index_vector
        = Ok ["c"; "a"; "a"].
Proof.
  assert (Hsub : ["c"; "a"; "a"] ⊆ ["a"; "b"; "c"])
    by (apply (bool_decide_unpack _); by_computation).
  assert (Hfit : indexes_fit (Index_init ["a"; "b"; "c"] 5))
    by (split; by_computation).
  split; [exact Hsub|]. split; [exact Hfit|].
  exact (index_round_trip ["a"; "b"; "c"] 5 ["c"; "a"; "a"] Hsub Hfit).
Defined.

(** C5 as stated fails when the sentinel leaves the signed 64-bit range:
    with the vocabulary ["a"] and [start = -2^63] the object "z" is
    encoded as [-2^63 - 1], and [np.array(..., dtype=int)] raises
    [OverflowError]. *)
Lemma objects_to_indexes_sentinel_overflows :
  objects_to_indexes (Index_init ["a"] (- 2 ^ 63)%Z) ["z"]
  = Raise OverflowError
  ∧ ¬ ∃ index_vector,
        objects_to_indexes (Index_init ["a"] (- 2 ^ 63)%Z) ["z"]
        = Ok index_vector.
Proof.
  split; [by_computation|].
  intros (index_vector & Hv). vm_compute in Hv. discriminate.
Qed.

(** C5, amended, at the sentinel example of the specification. *)
Lemma objects_to_indexes_positions_witness :
  values_fit (Index_init ["a"; "b"] 0)
  ∧ objects_to_indexes (Index_init ["a"; "b"] 0) ["a"; "z"] = Ok [0; -1]%Z.
Proof.
  assert (Hfit : values_fit (Index_init ["a"; "b"] 0))
    by (split; by_computation).
  split; [exact Hfit|].
  exact (proj1 (objects_to_indexes_positions ["a"; "b"] 0 ["a"; "z"] Hfit)).
Defined.

(** C6 as stated fails when the sentinel leaves the signed 64-bit range:
    with the vocabulary ["a"] and [start = -2^63], [np.full] cannot fill
    the matrix with [-2^63 - 1] and the call raises [OverflowError]. *)
Lemma index_matrix_sentinel_overflows :
  [["a"]] ≠ []
  ∧ objects_to_index_matrix (Index_init ["a"] (- 2 ^ 63)%Z) [["a"]]
    = Raise OverflowError
  ∧ ¬ ∃ matrix,
        objects_to_index_matrix (Index_init ["a"] (- 2 ^ 63)%Z) [["a"]]
        = Ok matrix.
Proof.
  split; [discriminate|]. split; [by_computation|].
  intros (matrix & Hm). vm_compute in Hm. discriminate.
Qed.

(** C6, amended, at the padding example of the specification. *)
Lemma index_matrix_rows_padded_witness :
  [["a"]; ["a"; "b"]] ≠ []
  ∧ values_fit (Index_init ["a"; "b"] 0)
  ∧ (array_bytes [Z.of_nat (length [["a"]; ["a"; "b"]]);
                  Z.of_nat (max_length_of [["a"]; ["a"; "b"]])]
     ≤ int64_max)%Z
  ∧ objects_to_index_matrix (Index_init ["a"; "b"] 0) [["a"]; ["a"; "b"]]
    = Ok (NdArray2 (2%nat, 2%nat) [[0; -1]; [0; 1]]%Z).
Proof.
  assert (Hne : [["a"]; ["a"; "b"]] ≠ []) by discriminate.
  assert (Hfit : values_fit (Index_init ["a"; "b"] 0))
    by (split; by_computation).
  assert (Hshape : (array_bytes [Z.of_nat (length [["a"]; ["a"; "b"]]);
                                 Z.of_nat (max_length_of [["a"]; ["a"; "b"]])]
                    ≤ int64_max)%Z) by by_computation.
  split; [exact Hne|]. split; [exact Hfit|]. split; [exact Hshape|].
  exact (proj1 (index_matrix_rows_padded ["a"; "b"] 0 [["a"]; ["a"; "b"]]
                  Hne Hfit Hshape)).
Defined.

(** C7 as stated fails for a negative [start]: with the vocabulary ["a"]
    and [start = -1] the vector has length 0 and the write at index -1
    raises [IndexError]. *)
Lemma binary_vector_negative_start_raises :
  objects_to_binary_vector (Index_init ["a"] (-1)) ["a"]
  = Raise IndexError_out_of_bounds
  ∧ ¬ ∃ vector, objects_to_binary_vector (Index_init ["a"] (-1)) ["a"]
                = Ok vector.
Proof.
  split; [by vm_compute|]. intros [vector Hv]. vm_compute in Hv. discriminate.
Qed.

(** C7, amended, at the one-hot example of the specification. *)
Lemma binary_vector_is_one_hot_witness :
  (0 ≤ 0)%Z
  ∧ (vocab_size (Index_init ["a"; "b"; "c"] 0)
     + start (Index_init ["a"; "b"; "c"] 0) ≤ max_array_elems)%Z
  ∧ objects_to_binary_vector (Index_init ["a"; "b"; "c"] 0) ["a"; "c"; "a"]
    = Ok [1; 0; 1]%Z.
Proof.
  assert (Hbase : (0 ≤ 0)%Z) by lia.
  assert (Hmax : (vocab_size (Index_init ["a"; "b"; "c"] 0)
                  + start (Index_init ["a"; "b"; "c"] 0)
                  ≤ max_array_elems)%Z) by by_computation.
  split; [exact Hbase|]. split; [exact Hmax|].
  exact (proj1 (binary_vector_is_one_hot ["a"; "b"; "c"] 0 ["a"; "c"; "a"]
                  Hbase Hmax)).
Defined.

(** C9 as stated fails when [vocab_size + start] is negative: with the
    empty vocabulary and [start = -1], [np.zeros((0, -1))] raises
    [ValueError]. *)
Lemma binary_matrix_negative_width_raises :
  objects_to_binary_matrix (Index_init (@nil string) (-1)) []
  = Raise ValueError_negative_dimensions
  ∧ ¬ ∃ matrix, objects_to_binary_matrix (Index_init (@nil string) (-1)) []
                = Ok matrix.
Proof.
  split; [by vm_compute|]. intros [matrix Hm]. vm_compute in Hm. discriminate.
Qed.

(** C9, amended, at the vocabulary ["x"] with [start = 1]. *)
Lemma binary_matrix_of_no_sequence_witness :
  (0 ≤ vocab_size (Index_init ["x"] 1) + start (Index_init ["x"] 1)
   ≤ max_array_elems)%Z
  ∧ objects_to_binary_matrix (Index_init ["x"] 1) []
    = Ok (NdArray2 (0%nat, 2%nat) []).
Proof.
  assert (Hw : (0 ≤ vocab_size (Index_init ["x"] 1)
                    + start (Index_init ["x"] 1) ≤ max_array_elems)%Z)
    by (split; by_computation).
  split; [exact Hw|].
  exact (binary_matrix_of_no_sequence ["x"] 1 Hw).
Defined.

(** C10 at the vocabulary ["x"] with [start = 1]. *)
Lemma binary_vector_writes_in_bounds_witness :
  (0 ≤ 1)%Z
  ∧ write_indexes (Index_init ["x"] 1) ["x"; "y"; "x"] = [1; 1]%Z
  ∧ Forall (λ idx, (0 ≤ idx < 2)%Z)
           (write_indexes (Index_init ["x"] 1) ["x"; "y"; "x"])
  ∧ objects_to_binary_vector (Index_init ["x"] 1) ["x"; "y"; "x"]
    ≠ Raise IndexError_out_of_bounds.
Proof.
  assert (Hbase : (0 ≤ 1)%Z) by lia.
  split; [exact Hbase|]. split; [reflexivity|].
  pose proof (binary_vector_writes_in_bounds ["x"] 1 ["x"; "y"; "x"] Hbase)
    as (_ & Hin & _ & _ & Hno).
  split; [exact Hin | exact Hno].
Defined.

(** The remaining examples of the specification. *)

Example start_offset_reserves_positions :
  let self := Index_init ["x"] 1 in
  object_to_index self = {[ "x" := 1 ]}
  ∧ vocab_size self = 1
  ∧ not_in_index self = 0
  ∧ objects_to_binary_vector self ["x"] = Ok [0; 1].
Proof. by vm_compute. Qed.

Example empty_vocabulary :
  let self := Index_init (@nil string) 0 in
  vocab_size self = 0
  ∧ objects_to_indexes self ["a"; "b"] = Ok [-1; -1]
  ∧ objects_to_binary_vector self ["a"; "b"] = Ok [].
Proof. by vm_compute. Qed.

Example binary_matrix_rows :
  objects_to_binary_matrix (Index_init ["x"] 1) [["x"]; ["y"]]
  = Ok (NdArray2 (2%nat, 2%nat) [[0; 1]; [0; 0]]).
Proof. by vm_compute. Qed.

Example index_matrix_to_objects_drops_padding :
  index_matrix_to_objects (Index_init ["a"; "b"] 0) [[0; -1]; [0; 1]]
  = Ok [["a"]; ["a"; "b"]].
Proof. by vm_compute. Qed.

(** The size that numpy refuses for a vector, and the largest it
    accepts. *)
Example one_hot_width_limit :
  objects_to_binary_vector (Index_init (@nil string) (2 ^ 60)%Z) []
  = Raise ValueError_array_too_big
  ∧ objects_to_binary_matrix (Index_init (@nil string) (2 ^ 60)%Z) []
    = Raise ValueError_array_too_big
  ∧ np_check_shape [2 ^ 60 - 1]%Z = Ok (2 ^ 63 - 8)%Z.
Proof. by vm_compute. Qed.

(** * Further properties at concrete vocabularies *)

(** X2 at a concrete vocabulary. *)
Lemma decode_encode_drops_unknown_witness :
  values_fit (Index_init ["a"; "b"] 0)
  ∧ ∃ index_vector,
      objects_to_indexes (Index_init ["a"; "b"] 0) ["b"; "z"; "a"; "b"]
      = Ok index_vector
      ∧ indexes_to_objects (Index_init ["a"; "b"] 0) index_vector
        = Ok ["b"; "a"; "b"].
Proof.
  assert (Hfit : values_fit (Index_init ["a"; "b"] 0))
    by (split; by_computation).
  split; [exact Hfit|].
  exact (decode_encode_drops_unknown ["a"; "b"] 0 ["b"; "z"; "a"; "b"] Hfit).
Defined.

(** X3 at a concrete vocabulary. *)
Lemma encode_decode_keeps_indexes_witness :
  indexes_fit (Index_init ["a"; "b"] 3)
  ∧ ∃ objs,
      indexes_to_objects (Index_init ["a"; "b"] 3) [4; 2; 3; 7; 4]%Z = Ok objs
      ∧ objects_to_indexes (Index_init ["a"; "b"] 3) objs = Ok [4; 3; 4]%Z.
Proof.
  assert (Hfit : indexes_fit (Index_init ["a"; "b"] 3))
    by (split; by_computation).
  split; [exact Hfit|].
  exact (encode_decode_keeps_indexes ["a"; "b"] 3 [4; 2; 3; 7; 4]%Z Hfit).
Defined.

(** X4 at a concrete vocabulary. *)
Lemma index_matrix_round_trip_witness :
  [["a"; "z"]; ["b"; "a"; "b"]] ≠ []
  ∧ values_fit (Index_init ["a"; "b"] 0)
  ∧ (array_bytes
       [Z.of_nat (length [["a"; "z"]; ["b"; "a"; "b"]]);
        Z.of_nat (max_length_of [["a"; "z"]; ["b"; "a"; "b"]])]
     ≤ int64_max)%Z
  ∧ ∃ matrix,
      objects_to_index_matrix (Index_init ["a"; "b"] 0)
        [["a"; "z"]; ["b"; "a"; "b"]] = Ok matrix
      ∧ index_matrix_to_objects (Index_init ["a"; "b"] 0) (rows matrix)
        = Ok [["a"]; ["b"; "a"; "b"]].
Proof.
  assert (Hne : [["a"; "z"]; ["b"; "a"; "b"]] ≠ []) by discriminate.
  assert (Hfit : values_fit (Index_init ["a"; "b"] 0))
    by (split; by_computation).
  assert (Hshape :
    (array_bytes
       [Z.of_nat (length [["a"; "z"]; ["b"; "a"; "b"]]);
        Z.of_nat (max_length_of [["a"; "z"]; ["b"; "a"; "b"]])]
     ≤ int64_max)%Z) by by_computation.
  split; [exact Hne|]. split; [exact Hfit|]. split; [exact Hshape|].
  exact (index_matrix_round_trip ["a"; "b"] 0 [["a"; "z"]; ["b"; "a"; "b"]]
           Hne Hfit Hshape).
Defined.

(** X5 at a concrete vocabulary. *)
Lemma sentinel_marks_unknown_objects_witness :
  values_fit (Index_init ["a"; "b"] 0)
  ∧ ∃ index_vector,
      objects_to_indexes (Index_init ["a"; "b"] 0) ["z"; "a"; "q"]
      = Ok index_vector
      ∧ map (λ idx, bool_decide (idx = not_in_index (Index_init ["a"; "b"] 0)))
            index_vector
        = [true; false; true].
Proof.
  assert (Hfit : values_fit (Index_init ["a"; "b"] 0))
    by (split; by_computation).
  split; [exact Hfit|].
  exact (sentinel_marks_unknown_objects ["a"; "b"] 0 ["z"; "a"; "q"] Hfit).
Defined.

(** X6 at a concrete vocabulary. *)
Lemma vocabulary_is_numbered_consecutively_witness :
  indexes_fit (Index_init ["b"; "a"; "b"; "c"] 7)
  ∧ objects_to_indexes (Index_init ["b"; "a"; "b"; "c"] 7) ["b"; "a"; "c"]
    = Ok [7; 8; 9]%Z
  ∧ indexes_to_objects (Index_init ["b"; "a"; "b"; "c"] 7) [7; 8; 9]%Z
    = Ok ["b"; "a"; "c"].
Proof.
  assert (Hfit : indexes_fit (Index_init ["b"; "a"; "b"; "c"] 7))
    by (split; by_computation).
  split; [exact Hfit|].
  exact (vocabulary_is_numbered_consecutively ["b"; "a"; "b"; "c"] 7 Hfit).
Defined.

(** X10 at a concrete vocabulary. *)
Lemma binary_matrix_rows_are_one_hot_witness :
  (0 ≤ 1)%Z
  ∧ (array_bytes [Z.of_nat (length [["y"]; []; ["q"; "x"]]);
                  vocab_size (Index_init ["x"; "y"] 1)
                  + start (Index_init ["x"; "y"] 1)] ≤ int64_max)%Z
  ∧ objects_to_binary_matrix (Index_init ["x"; "y"] 1) [["y"]; []; ["q"; "x"]]
    = Ok (NdArray2 (3%nat, 3%nat) [[0; 0; 1]; [0; 0; 0]; [0; 1; 0]]%Z).
Proof.
  assert (Hbase : (0 ≤ 1)%Z) by lia.
  assert (Hshape :
    (array_bytes [Z.of_nat (length [["y"]; []; ["q"; "x"]]);
                  vocab_size (Index_init ["x"; "y"] 1)
                  + start (Index_init ["x"; "y"] 1)] ≤ int64_max)%Z)
    by by_computation.
  split; [exact Hbase|]. split; [exact Hshape|].
  exact (proj1 (binary_matrix_rows_are_one_hot ["x"; "y"] 1
                  [["y"]; []; ["q"; "x"]] Hbase Hshape)).
Defined.

(** X11 at a concrete vocabulary. *)
Lemma binary_round_trip_witness :
  (0 ≤ 0)%Z
  ∧ (vocab_size (Index_init ["a"; "b"; "c"] 0)
     + start (Index_init ["a"; "b"; "c"] 0) ≤ max_array_elems)%Z
  ∧ ∃ vector,
      objects_to_binary_vector (Index_init ["a"; "b"; "c"] 0) ["c"; "z"; "a"; "c"]
      = Ok vector
      ∧ binary_vector_to_objects (Index_init ["a"; "b"; "c"] 0) vector
        = Ok ["a"; "c"].
Proof.
  assert (Hbase : (0 ≤ 0)%Z) by lia.
  assert (Hmax : (vocab_size (Index_init ["a"; "b"; "c"] 0)
                  + start (Index_init ["a"; "b"; "c"] 0)
                  ≤ max_array_elems)%Z) by by_computation.
  split; [exact Hbase|]. split; [exact Hmax|].
  exact (binary_round_trip ["a"; "b"; "c"] 0 ["c"; "z"; "a"; "c"] Hbase Hmax).
Defined.

(** X12 at a concrete vocabulary. *)
Lemma binary_matrix_round_trip_witness :
  (0 ≤ 1)%Z
  ∧ (array_bytes [Z.of_nat (length [["y"; "x"]; ["q"]]);
                  vocab_size (Index_init ["x"; "y"] 1)
                  + start (Index_init ["x"; "y"] 1)] ≤ int64_max)%Z
  ∧ ∃ matrix,
      objects_to_binary_matrix (Index_init ["x"; "y"] 1) [["y"; "x"]; ["q"]]
      = Ok matrix
      ∧ binary_matrix_to_objects (Index_init ["x"; "y"] 1) (rows matrix)
        = Ok [["x"; "y"]; []].
Proof.
  assert (Hbase : (0 ≤ 1)%Z) by lia.
  assert (Hshape :
    (array_bytes [Z.of_nat (length [["y"; "x"]; ["q"]]);
                  vocab_size (Index_init ["x"; "y"] 1)
                  + start (Index_init ["x"; "y"] 1)] ≤ int64_max)%Z)
    by by_computation.
  split; [exact Hbase|]. split; [exact Hshape|].
  exact (binary_matrix_round_trip ["x"; "y"] 1 [["y"; "x"]; ["q"]]
           Hbase Hshape).
Defined.

(** X13 at a concrete vocabulary. *)
Lemma binary_encode_decode_witness :
  (0 ≤ 1)%Z
  ∧ (Z.of_nat (length [0; 0; 1])
     = vocab_size (Index_init ["x"; "y"] 1) + start (Index_init ["x"; "y"] 1))%Z
  ∧ Forall (λ b, b = 0 ∨ b = 1)%Z [0; 0; 1]%Z
  ∧ Forall (λ b, b = 0)%Z (take (Z.to_nat 1) [0; 0; 1]%Z)
  ∧ ∃ objs,
      binary_vector_to_objects (Index_init ["x"; "y"] 1) [0; 0; 1] = Ok objs
      ∧ objects_to_binary_vector (Index_init ["x"; "y"] 1) objs
        = Ok [0; 0; 1]%Z.
Proof.
  assert (Hbase : (0 ≤ 1)%Z) by lia.
  assert (Hlen : (Z.of_nat (length [0; 0; 1])
                  = vocab_size (Index_init ["x"; "y"] 1)
                    + start (Index_init ["x"; "y"] 1))%Z)
    by (vm_compute; reflexivity).
  assert (Hbits : Forall (λ b, b = 0 ∨ b = 1)%Z [0; 0; 1]%Z)
    by (repeat constructor; lia).
  assert (Hres : Forall (λ b, b = 0)%Z (take (Z.to_nat 1) [0; 0; 1]%Z))
    by (repeat constructor).
  split; [exact Hbase|]. split; [exact Hlen|].
  split; [exact Hbits|]. split; [exact Hres|].
  exact (binary_encode_decode ["x"; "y"] 1 [0; 0; 1]%Z Hbase Hlen Hbits Hres).
Defined.

(** X14 at a concrete vocabulary. *)
Lemma binary_vector_of_concatenation_witness :
  (0 ≤ 0)%Z
  ∧ (vocab_size (Index_init ["a"; "b"; "c"] 0)
     + start (Index_init ["a"; "b"; "c"] 0) ≤ max_array_elems)%Z
  ∧ ∃ v1 v2,
      objects_to_binary_vector (Index_init ["a"; "b"; "c"] 0) ["a"] = Ok v1
      ∧ objects_to_binary_vector (Index_init ["a"; "b"; "c"] 0) ["c"; "a"]
        = Ok v2
      ∧ objects_to_binary_vector (Index_init ["a"; "b"; "c"] 0)
          (["a"] ++ ["c"; "a"])
        = Ok (zip_with Z.max v1 v2).
Proof.
  assert (Hbase : (0 ≤ 0)%Z) by lia.
  assert (Hmax : (vocab_size (Index_init ["a"; "b"; "c"] 0)
                  + start (Index_init ["a"; "b"; "c"] 0)
                  ≤ max_array_elems)%Z) by by_computation.
  split; [exact Hbase|]. split; [exact Hmax|].
  exact (binary_vector_of_concatenation ["a"; "b"; "c"] 0 ["a"] ["c"; "a"]
           Hbase Hmax).
Defined.

(** X15 at a concrete vocabulary. *)
Lemma binary_vector_of_same_objects_witness :
  (0 ≤ 0)%Z
  ∧ (∀ obj, obj ∈ ["c"; "a"; "c"] ↔ obj ∈ ["a"; "c"])
  ∧ objects_to_binary_vector (Index_init ["a"; "b"; "c"] 0) ["c"; "a"; "c"]
    = objects_to_binary_vector (Index_init ["a"; "b"; "c"] 0) ["a"; "c"].
Proof.
  assert (Hbase : (0 ≤ 0)%Z) by lia.
  assert (Hsame : ∀ obj, obj ∈ ["c"; "a"; "c"] ↔ obj ∈ ["a"; "c"]).
  { intros obj. rewrite !elem_of_cons, !elem_of_nil. tauto. }
  split; [exact Hbase|]. split; [exact Hsame|].
  exact (binary_vector_of_same_objects ["a"; "b"; "c"] 0
           ["c"; "a"; "c"] ["a"; "c"] Hbase Hsame).
Defined.
